(** * Hybrid search engine of the Unity knowledge base

    A shallow embedding of [openspec/unity-kb/hybrid_search.py] (the BM25
    tokenizer, the sparse vectorizer, the [HybridSearchEngine], the
    convenience functions and the interactive mode), of the search presets
    of [openspec/unity-kb/qdrant_config.py] and of the indexing loops of
    [openspec/unity-kb/index_project.py], with the properties the
    specification states about them and further properties of the code. *)

From Stdlib Require Import NArith ZArith List String Ascii Bool Lia.
From Stdlib Require Import Floats Uint63 DecimalString.
Import ListNotations.

Set Warnings "-inexact-float,-register-all".
Local Open Scope N_scope.

(** ** Python strings

    A Python [str] is a sequence of Unicode code points.  The code calls
    [str.lower], [str.upper] and the classes [\w] and [\s] of the [re]
    module on it; on ASCII these are fixed below, and beyond ASCII they are
    the tables of the Unicode database, which the development takes as an
    interface ([Unicode]) whose every instance agrees with Python on
    ASCII. *)
Module Py.

Definition char := N.
Definition text := list char.

(** A string literal of the source, as code points. *)
Definition str (s : string) : text := map N_of_ascii (list_ascii_of_string s).

Definition char_eqb : char -> char -> bool := N.eqb.

Fixpoint text_eqb (s t : text) : bool :=
  match s, t with
  | [], [] => true
  | c :: s', d :: t' => char_eqb c d && text_eqb s' t'
  | _, _ => false
  end.

(** [x in xs] for a collection of strings. *)
Definition mem (x : text) (xs : list text) : bool := existsb (text_eqb x) xs.

(** [len(t)] *)
Definition len (t : text) : Z := Z.of_nat (List.length t).

Definition is_ascii (c : char) : bool := c <? 128.
Definition all_ascii (s : text) : bool := forallb is_ascii s.

(** [[A-Z]] of a regular expression without [re.IGNORECASE]. *)
Definition is_AZ (c : char) : bool := (65 <=? c) && (c <=? 90).
Definition is_az (c : char) : bool := (97 <=? c) && (c <=? 122).
Definition is_09 (c : char) : bool := (48 <=? c) && (c <=? 57).

Definition underscore : char := 95.
Definition space : char := 32.

Definition ascii_lower (c : char) : char := if is_AZ c then c + 32 else c.
Definition ascii_upper (c : char) : char := if is_az c then c - 32 else c.

(** [\w] on ASCII: letters, digits and the underscore. *)
Definition ascii_word (c : char) : bool :=
  is_az c || is_AZ c || is_09 c || (c =? underscore).

(** [\s] on ASCII: tab, newline, vertical tab, form feed, carriage return,
    the four separators U+001C..U+001F and the space. *)
Definition ascii_space (c : char) : bool :=
  ((9 <=? c) && (c <=? 13)) || ((28 <=? c) && (c <=? 32)).

Class Unicode : Type := {
  lower : text -> text;                 (* str.lower() *)
  upper : text -> text;                 (* str.upper() *)
  isword : char -> bool;                (* \w *)
  isspace : char -> bool;               (* \s *)
  lower_ascii : forall s, all_ascii s = true -> lower s = map ascii_lower s;
  upper_ascii : forall s, all_ascii s = true -> upper s = map ascii_upper s;
  isword_ascii : forall c, is_ascii c = true -> isword c = ascii_word c;
  isspace_ascii : forall c, is_ascii c = true -> isspace c = ascii_space c
}.

(** [str.encode()]: UTF-8.  ([encode] raises on a lone surrogate; no
    surrogate is a word character, so none reaches a token.) *)
Definition utf8_char (c : char) : list N :=
  if c <? 0x80 then [c]
  else if c <? 0x800 then
    [N.lor 0xC0 (N.shiftr c 6); N.lor 0x80 (N.land c 0x3F)]
  else if c <? 0x10000 then
    [N.lor 0xE0 (N.shiftr c 12);
     N.lor 0x80 (N.land (N.shiftr c 6) 0x3F);
     N.lor 0x80 (N.land c 0x3F)]
  else
    [N.lor 0xF0 (N.land (N.shiftr c 18) 0x07);
     N.lor 0x80 (N.land (N.shiftr c 12) 0x3F);
     N.lor 0x80 (N.land (N.shiftr c 6) 0x3F);
     N.lor 0x80 (N.land c 0x3F)].

Definition encode (s : text) : list N := flat_map utf8_char s.

(** [int(s, 16)] on a string of hexadecimal digits ([int] raises
    [ValueError] on any other character; [hexdigest] prints none). *)
Definition hex_value (c : char) : N :=
  if is_09 c then c - 48
  else if (97 <=? c) && (c <=? 102) then c - 87
  else if (65 <=? c) && (c <=? 70) then c - 55
  else 0.

Definition int16 (s : text) : N :=
  fold_left (fun acc c => 16 * acc + hex_value c) s 0.

(** The digits [bytes.hex()] and [hexdigest()] print. *)
Definition hex_digit (n : N) : char := if n <? 10 then 48 + n else 87 + n.

Definition hex_byte (b : N) : text :=
  [hex_digit (N.shiftr b 4); hex_digit (N.land b 0xF)].

(** ** The Unicode tables up to U+00FF

    Python's case mappings and classes on Basic Latin and the Latin-1
    Supplement, with the three code points that upper-casing reaches from
    there (U+0178, U+039C) or that lower-casing reaches back (U+03BC); any
    other code point is left as it is and is neither a word character nor a
    space. *)
Definition latin1_upcase (c : char) : bool :=
  ((0xC0 <=? c) && (c <=? 0xDE)) && negb (c =? 0xD7).
Definition latin1_lowcase (c : char) : bool :=
  ((0xE0 <=? c) && (c <=? 0xFE)) && negb (c =? 0xF7).

Definition latin1_lower_char (c : char) : text :=
  if is_ascii c then [ascii_lower c]
  else if latin1_upcase c then [c + 32]
  else if c =? 0x178 then [0xFF]
  else if c =? 0x39C then [0x3BC]
  else [c].

Definition latin1_upper_char (c : char) : text :=
  if is_ascii c then [ascii_upper c]
  else if latin1_lowcase c then [c - 32]
  else if c =? 0xDF then [83; 83]
  else if c =? 0xFF then [0x178]
  else if c =? 0xB5 then [0x39C]
  else if c =? 0x3BC then [0x39C]
  else [c].

Definition latin1_word (c : char) : bool :=
  if is_ascii c then ascii_word c
  else existsb (N.eqb c) [0xAA; 0xB2; 0xB3; 0xB5; 0xB9; 0xBA; 0xBC; 0xBD; 0xBE;
                          0x178; 0x39C; 0x3BC]
       || latin1_upcase c || latin1_lowcase c || (c =? 0xDF) || (c =? 0xFF).

Definition latin1_space (c : char) : bool :=
  if is_ascii c then ascii_space c else (c =? 0x85) || (c =? 0xA0).

End Py.

(** ** [hashlib.md5]

    MD5 (RFC 1321) on a list of bytes, with 32-bit words as [N] and the
    wrap-around of every addition and rotation written out. *)
Module MD5.

Definition mask32 : N := 0xFFFFFFFF.
Definition add32 (x y : N) : N := N.land (x + y) mask32.
Definition not32 (x : N) : N := N.lxor x mask32.
Definition rotl32 (x s : N) : N :=
  N.land (N.lor (N.shiftl x s) (N.shiftr x (32 - s))) mask32.

Definition K : list N :=
  [0xd76aa478; 0xe8c7b756; 0x242070db; 0xc1bdceee;
   0xf57c0faf; 0x4787c62a; 0xa8304613; 0xfd469501;
   0x698098d8; 0x8b44f7af; 0xffff5bb1; 0x895cd7be;
   0x6b901122; 0xfd987193; 0xa679438e; 0x49b40821;
   0xf61e2562; 0xc040b340; 0x265e5a51; 0xe9b6c7aa;
   0xd62f105d; 0x02441453; 0xd8a1e681; 0xe7d3fbc8;
   0x21e1cde6; 0xc33707d6; 0xf4d50d87; 0x455a14ed;
   0xa9e3e905; 0xfcefa3f8; 0x676f02d9; 0x8d2a4c8a;
   0xfffa3942; 0x8771f681; 0x6d9d6122; 0xfde5380c;
   0xa4beea44; 0x4bdecfa9; 0xf6bb4b60; 0xbebfbc70;
   0x289b7ec6; 0xeaa127fa; 0xd4ef3085; 0x04881d05;
   0xd9d4d039; 0xe6db99e5; 0x1fa27cf8; 0xc4ac5665;
   0xf4292244; 0x432aff97; 0xab9423a7; 0xfc93a039;
   0x655b59c3; 0x8f0ccc92; 0xffeff47d; 0x85845dd1;
   0x6fa87e4f; 0xfe2ce6e0; 0xa3014314; 0x4e0811a1;
   0xf7537e82; 0xbd3af235; 0x2ad7d2bb; 0xeb86d391].

Definition shifts : list N :=
  [7; 12; 17; 22; 7; 12; 17; 22; 7; 12; 17; 22; 7; 12; 17; 22;
   5; 9; 14; 20; 5; 9; 14; 20; 5; 9; 14; 20; 5; 9; 14; 20;
   4; 11; 16; 23; 4; 11; 16; 23; 4; 11; 16; 23; 4; 11; 16; 23;
   6; 10; 15; 21; 6; 10; 15; 21; 6; 10; 15; 21; 6; 10; 15; 21].

(** [n] bytes of [x], least significant first. *)
Fixpoint le_bytes (n : nat) (x : N) : list N :=
  match n with
  | O => []
  | S n' => N.land x 0xFF :: le_bytes n' (N.shiftr x 8)
  end.

Fixpoint le_word (bs : list N) : N :=
  match bs with
  | [] => 0
  | b :: bs' => b + 256 * le_word bs'
  end.

(** The message, one [0x80] byte, zeros up to 56 modulo 64, and the length
    in bits on 8 bytes. *)
Definition pad (msg : list N) : list N :=
  let n := N.of_nat (List.length msg) in
  msg ++ [0x80] ++ repeat 0 (N.to_nat ((119 - n mod 64) mod 64))
      ++ le_bytes 8 (N.land (8 * n) 0xFFFFFFFFFFFFFFFF).

Fixpoint chunks (size count : nat) (l : list N) : list (list N) :=
  match count with
  | O => []
  | S c => firstn size l :: chunks size c (skipn size l)
  end.

Record state := mk_state { sa : N; sb : N; sc : N; sd : N }.

Definition init : state :=
  mk_state 0x67452301 0xefcdab89 0x98badcfe 0x10325476.

Definition round (m : list N) (st : state) (i : nat) : state :=
  let '(mk_state a b c d) := st in
  let j := N.of_nat i in
  let '(f, g) :=
    if j <? 16 then (N.lor (N.land b c) (N.land (not32 b) d), j)
    else if j <? 32 then
      (N.lor (N.land d b) (N.land (not32 d) c), (5 * j + 1) mod 16)
    else if j <? 48 then (N.lxor (N.lxor b c) d, (3 * j + 5) mod 16)
    else (N.lxor c (N.lor b (not32 d)), (7 * j) mod 16) in
  let f' := add32 (add32 (add32 f a) (nth i K 0)) (nth (N.to_nat g) m 0) in
  mk_state d (add32 b (rotl32 f' (nth i shifts 0))) b c.

Definition block (st : state) (bytes : list N) : state :=
  let m := map le_word (chunks 4 16 bytes) in
  let st' := fold_left (round m) (seq 0 64) st in
  mk_state (add32 (sa st) (sa st')) (add32 (sb st) (sb st'))
           (add32 (sc st) (sc st')) (add32 (sd st) (sd st')).

(** [hashlib.md5(msg).digest()] *)
Definition digest (msg : list N) : list N :=
  let p := pad msg in
  let st := fold_left block (chunks 64 (List.length p / 64) p) init in
  le_bytes 4 (sa st) ++ le_bytes 4 (sb st) ++ le_bytes 4 (sc st)
    ++ le_bytes 4 (sd st).

(** [hashlib.md5(msg).hexdigest()] *)
Definition hexdigest (msg : list N) : Py.text := flat_map Py.hex_byte (digest msg).

End MD5.

(** ** [class BM25Tokenizer] *)
Module BM25Tokenizer.
Import Py.

(** A Python [int] used as a [float] operand (exact below [2^53]). *)
Definition float_of_int (z : Z) : float := PrimFloat.of_uint63 (Uint63.of_Z z).

(** A [dict] with string keys, in insertion order. *)
Definition dict (V : Type) := list (text * V).

Fixpoint dict_get {V} (d : dict V) (k : text) (default : V) : V :=
  match d with
  | [] => default
  | (k', v) :: d' => if text_eqb k' k then v else dict_get d' k default
  end.

(** [k in d] *)
Definition has_key {V} (d : dict V) (k : text) : bool :=
  existsb (fun kv => text_eqb (fst kv) k) d.

(** [tf[token] += 1] on a [defaultdict(int)]: a new key goes last. *)
Fixpoint dict_incr (tf : dict Z) (token : text) : dict Z :=
  match tf with
  | [] => [(token, (0 + 1)%Z)]
  | (k, v) :: tf' =>
      if text_eqb k token then (k, (v + 1)%Z) :: tf'
      else (k, v) :: dict_incr tf' token
  end.

(** The attributes [__init__] sets from its arguments. *)
Record t := { k1 : float; b : float }.

(** [BM25Tokenizer()], i.e. [k1 = 1.5, b = 0.75]. *)
Definition default : t := {| k1 := 1.5%float; b := 0.75%float |}.

Definition stop_words : list text :=
  map str ["the"; "a"; "an"; "and"; "or"; "but"; "in"; "on"; "at"; "to";
           "for"; "of"; "with"; "by"; "from"; "as"; "is"; "was"; "be";
           "this"; "that"; "it"; "they"; "we"; "you"; "i"; "my"; "your"]%string.

Definition boost_tokens : dict float :=
  [(str "network", 2.0); (str "rpc", 2.0); (str "serverrpc", 2.5);
   (str "clientrpc", 2.5); (str "networkvariable", 2.0);
   (str "networkobject", 2.0); (str "networkbehaviour", 2.0);
   (str "gamecreator", 2.0); (str "instruction", 1.5); (str "condition", 1.5);
   (str "trigger", 1.5); (str "character", 1.5); (str "inventory", 1.5);
   (str "spawn", 1.5); (str "despawn", 1.5); (str "owner", 1.5)]%float.

(** [camel_case_pattern.sub(' ', text)] with the pattern [(?<!^)(?=[A-Z])]:
    a space goes before every [A-Z] that is not the first character. *)
Definition camel_case_sub (s : text) : text :=
  match s with
  | [] => []
  | c :: rest => c :: flat_map (fun d => if is_AZ d then [space; d] else [d]) rest
  end.

Section Tokenize.
Context {U : Unicode}.

(** [re.sub(r'[^\w\s_]', ' ', text)] *)
Definition sub_special (s : text) : text :=
  map (fun c => if isword c || isspace c || (c =? underscore) then c else space) s.

(** The separator class [[\s_]]. *)
Definition is_sep (c : char) : bool := isspace c || (c =? underscore).

(** [re.split(r'[\s_]+', text)]: the pieces between the maximal runs of
    separators, an empty piece at either end included.  [cur] is the piece
    being read, reversed; [in_sep] says that a run is being skipped. *)
Fixpoint split_from (cur : text) (in_sep : bool) (s : text) : list text :=
  match s with
  | [] => [rev cur]
  | c :: rest =>
      if is_sep c then
        if in_sep then split_from [] true rest
        else rev cur :: split_from [] true rest
      else split_from (c :: cur) false rest
  end.

Definition re_split (s : text) : list text := split_from [] false s.

Definition tokenize (s : text) : list text :=
  let s := lower s in
  let s := camel_case_sub s in
  let s := sub_special s in
  let tokens := re_split s in
  filter (fun t => (2 <=? len t)%Z && negb (mem t stop_words)) tokens.

(** [int(hashlib.md5(token.encode()).hexdigest()[:8], 16)] *)
Definition token_hash (token : text) : N :=
  int16 (firstn 8 (MD5.hexdigest (encode token))).

(** [(count * boost) / (count + self.k1)], in binary64 arithmetic.  Python
    raises [ZeroDivisionError] when [count + self.k1] is zero, which takes
    [k1 = -count]; with [0 < k1], as in [BM25Tokenizer()], the divisor is
    positive and [term_weight] is the quotient Python computes. *)
Definition term_weight (self : t) (token : text) (count : Z) : float :=
  let boost := dict_get boost_tokens token 1.0%float in
  ((float_of_int count * boost) / (float_of_int count + k1 self))%float.

Definition term_frequencies (tokens : list text) : dict Z :=
  fold_left dict_incr tokens [].

Definition to_sparse_vector (self : t) (s : text) : list N * list float :=
  let tokens := tokenize s in
  let tf := term_frequencies tokens in
  (map (fun '(token, _) => token_hash token) tf,
   map (fun '(token, count) => term_weight self token count) tf).

End Tokenize.
End BM25Tokenizer.

(** ** Exceptions and external calls

    The engine talks to a Qdrant index and to an embedding function.  A
    computation of the engine is a pair of the events it caused, oldest
    first, and of its outcome: a value, or the exception it raised. *)
Module Effects.
Import Py.

Inductive exn :=
  | TypeError
  | AttributeError
  | KeyError
  | ExternalError (message : text).   (* raised by the index or the embedder *)

Inductive result (A : Type) :=
  | Ok (a : A)
  | Raise (e : exn).
Arguments Ok {A} a.
Arguments Raise {A} e.

Definition rbind {A B} (r : result A) (f : A -> result B) : result B :=
  match r with
  | Ok a => f a
  | Raise e => Raise e
  end.

Fixpoint rmap {A B} (f : A -> result B) (l : list A) : result (list B) :=
  match l with
  | [] => Ok []
  | x :: l' => rbind (f x) (fun y => rbind (rmap f l') (fun ys => Ok (y :: ys)))
  end.

Section Run.
Variable event : Type.

Definition py (A : Type) : Type := list event * result A.

Definition ret {A} (a : A) : py A := ([], Ok a).

Definition bind {A B} (m : py A) (f : A -> py B) : py B :=
  match m with
  | (tr, Ok a) => let (tr', r) := f a in (tr ++ tr', r)
  | (tr, Raise e) => (tr, Raise e)
  end.

(** One external call: the event is recorded and its outcome returned. *)
Definition perform {A} (ev : event) (r : result A) : py A := ([ev], r).

Definition lift {A} (r : result A) : py A := ([], r).

(** [try: m  except Exception as e: handler e] *)
Definition try_except {A} (m : py A) (handler : exn -> py A) : py A :=
  match m with
  | (tr, Ok a) => (tr, Ok a)
  | (tr, Raise e) => let (tr', r) := handler e in (tr ++ tr', r)
  end.

End Run.
Arguments ret {event A} a.
Arguments bind {event A B} m f.
Arguments perform {event A} ev r.
Arguments lift {event A} r.
Arguments try_except {event A} m handler.

Definition trace {event A} (m : py event A) : list event := fst m.
Definition outcome {event A} (m : py event A) : result A := snd m.

End Effects.

Declare Scope py_scope.
Delimit Scope py_scope with py.
Notation "x <- m ;; k" := (Effects.bind m (fun x => k))
  (at level 61, m at next level, right associativity) : py_scope.

(** ** The models of [qdrant_client] the engine builds and reads *)
Module Qdrant.
Import Py BM25Tokenizer Effects.

(** A Python value of a filter specification or of a payload. *)
Inductive value :=
  | VNone
  | VBool (b : bool)
  | VInt (n : Z)
  | VFloat (x : float)
  | VStr (s : text)
  | VList (l : list value)
  | VDict (d : list (text * value)).

Definition payload := dict value.

(** [MatchValue(value=v)], [MatchAny(any=v)], [MatchText(text=v)] and
    [FieldCondition(key=k, match=m)], as the arguments they are built from.
    The library validates these arguments and raises [ValidationError] on
    those it does not accept ([accepted], below, says which it does). *)
Inductive Match :=
  | MatchValue (v : value)
  | MatchAny (any : value)
  | MatchText (t : value).

Record FieldCondition := { fc_key : value; fc_match : Match }.

Record Filter := {
  must : option (list FieldCondition);
  should : option (list FieldCondition);
  must_not : option (list FieldCondition)
}.

(** Arguments the models accept in every version of the library: a key and
    a text that are strings; a value that is a boolean, an integer or a
    string; a list of strings or a list of integers. *)
Definition is_str (v : value) : bool :=
  match v with
  | VStr _ => true
  | _ => false
  end.

Definition is_int (v : value) : bool :=
  match v with
  | VInt _ => true
  | _ => false
  end.

Definition accepted_match (m : Match) : bool :=
  match m with
  | MatchValue (VBool _ | VInt _ | VStr _) => true
  | MatchAny (VList l) => forallb is_str l || forallb is_int l
  | MatchText (VStr _) => true
  | _ => false
  end.

Definition accepted (c : FieldCondition) : bool :=
  is_str (fc_key c) && accepted_match (fc_match c).

Definition accepted_list (l : option (list FieldCondition)) : bool :=
  match l with
  | Some cs => forallb accepted cs
  | None => true
  end.

Definition accepted_filter (f : Filter) : bool :=
  accepted_list (must f) && accepted_list (should f) && accepted_list (must_not f).

Inductive query_vector :=
  | Dense (v : list float)
  | Sparse (indices : list N) (values : list float).   (* SparseVector *)

Record Prefetch := {
  pf_query : query_vector;
  pf_using : text;
  pf_limit : Z;
  pf_filter : option Filter
}.

Inductive Fusion := RRF | DBSF.

(** [NamedVector(name, vector)] and [NamedSparseVector(name, vector)] *)
Record NamedVector := { nv_name : text; nv_vector : query_vector }.

Inductive point_id :=
  | IntId (n : Z)
  | StrId (s : text).

(** [str(point.id)] *)
Definition str_id (i : point_id) : text :=
  match i with
  | IntId n => str (NilZero.string_of_int (Z.to_int n))
  | StrId s => s
  end.

Record ScoredPoint := {
  sp_id : point_id;
  sp_score : float;
  sp_payload : option payload
}.

(** A point as [scroll] returns it: no score. *)
Record Record_ := { rec_id : point_id; rec_payload : option payload }.

(** The methods of [QdrantClient] the engine calls, as functions of their
    keyword arguments: collection name, query, filter, limit,
    [with_payload]. *)
Record QdrantClient := {
  query_points :
    text -> list Prefetch -> Fusion -> Z -> bool -> result (list ScoredPoint);
  search :
    text -> NamedVector -> option Filter -> Z -> bool -> result (list ScoredPoint);
  scroll :
    text -> option Filter -> Z -> bool -> result (list Record_ * option point_id)
}.

(** What leaves the process. *)
Inductive event :=
  | EEmbed (query : text)
  | EQueryPoints (collection : text) (prefetch : list Prefetch) (query : Fusion)
                 (limit : Z) (with_payload : bool)
  | ESearch (collection : text) (query_vector : NamedVector)
            (query_filter : option Filter) (limit : Z) (with_payload : bool)
  | EScroll (collection : text) (scroll_filter : option Filter) (limit : Z)
            (with_payload : bool)
  | EWarning (e : exn).   (* print("[WARNING] Fusion search failed: ...") *)


End Qdrant.

(** ** [qdrant_config.py] *)
Module Config.
Import Py BM25Tokenizer Qdrant.

Definition QDRANT_HOST : text := str "localhost".
Definition QDRANT_PORT : Z := 6333.
Definition COLLECTION_UNIFIED : text := str "mlcreator_unified".
Definition DEFAULT_DENSE_WEIGHT : float := 0.7.
Definition DEFAULT_SPARSE_WEIGHT : float := 0.3.

Record HybridSearchConfig := {
  fusion_method : text;
  rrf_k : Z;
  normalize_scores : bool;
  dense_prefetch_limit : Z;
  sparse_prefetch_limit : Z;
  final_limit : Z;
  dense_weight : float;
  sparse_weight : float;
  hnsw_ef : Z;
  timeout_seconds : Z
}.

(** [HybridSearchConfig()] *)
Definition default_config : HybridSearchConfig := {|
  fusion_method := str "rrf";
  rrf_k := 60;
  normalize_scores := true;
  dense_prefetch_limit := 100;
  sparse_prefetch_limit := 100;
  final_limit := 20;
  dense_weight := DEFAULT_DENSE_WEIGHT;
  sparse_weight := DEFAULT_SPARSE_WEIGHT;
  hnsw_ef := 128;
  timeout_seconds := 30
|}.

(** A preset: a dictionary over five known keys, a key absent being
    [None]. *)
Record preset_config := {
  p_dense_weight : option float;
  p_sparse_weight : option float;
  p_filter : option (dict value);
  p_prefetch_limit : option Z;
  p_final_limit : option Z
}.

(** The empty dictionary [{}]. *)
Definition no_preset : preset_config :=
  {| p_dense_weight := None; p_sparse_weight := None; p_filter := None;
     p_prefetch_limit := None; p_final_limit := None |}.

Module SearchPresets.

Definition leaf (key : string) (kind : string) (v : value) : value :=
  VDict [(str "key", VStr (str key)); (str "match", VDict [(str kind, v)])].

Definition code_search : preset_config := {|
  p_dense_weight := Some 0.6%float;
  p_sparse_weight := Some 0.4%float;
  p_filter := Some [(str "content_type", VStr (str "code"))];
  p_prefetch_limit := Some 50%Z;
  p_final_limit := Some 20%Z
|}.

Definition semantic_search : preset_config := {|
  p_dense_weight := Some 0.85%float;
  p_sparse_weight := Some 0.15%float;
  p_filter := None;
  p_prefetch_limit := Some 100%Z;
  p_final_limit := Some 20%Z
|}.

Definition keyword_search : preset_config := {|
  p_dense_weight := Some 0.3%float;
  p_sparse_weight := Some 0.7%float;
  p_filter := None;
  p_prefetch_limit := Some 100%Z;
  p_final_limit := Some 30%Z
|}.

Definition network_code_search : preset_config := {|
  p_dense_weight := Some 0.5%float;
  p_sparse_weight := Some 0.5%float;
  p_filter := Some
    [(str "must",
      VList [leaf "content_type" "value" (VStr (str "code"));
             leaf "is_network" "value" (VBool true)])];
  p_prefetch_limit := Some 50%Z;
  p_final_limit := Some 20%Z
|}.

Definition gamecreator_search : preset_config := {|
  p_dense_weight := Some 0.6%float;
  p_sparse_weight := Some 0.4%float;
  p_filter := Some
    [(str "should",
      VList [leaf "assembly_category" "value" (VStr (str "gamecreator_core"));
             leaf "assembly_category" "value" (VStr (str "gamecreator_module"));
             leaf "keywords" "any"
               (VList [VStr (str "gamecreator"); VStr (str "instruction");
                       VStr (str "condition")])])];
  p_prefetch_limit := Some 50%Z;
  p_final_limit := Some 20%Z
|}.

Definition documentation_search : preset_config := {|
  p_dense_weight := Some 0.75%float;
  p_sparse_weight := Some 0.25%float;
  p_filter := Some [(str "content_type", VStr (str "doc"))];
  p_prefetch_limit := Some 50%Z;
  p_final_limit := Some 15%Z
|}.

End SearchPresets.
End Config.

(** ** [class HybridSearchEngine] *)
Module HybridSearchEngine.
Import Py BM25Tokenizer Effects Qdrant Config.
Local Open Scope py_scope.

Record SearchResult := {
  id : text;
  score : float;
  payload_ : payload;
  vector_name : text
}.

Record config_used_ := {
  cu_dense_weight : float;
  cu_sparse_weight : float;
  cu_preset : option text;
  cu_limit : Z
}.

Record HybridSearchResponse := {
  results : list SearchResult;
  total_found : Z;
  query : text;
  search_time_ms : float;
  config_used : config_used_
}.

(** The attributes of an engine; [client] stands for the connection that
    [__init__] opens. *)
Record t := {
  client : QdrantClient;
  collection_name : text;
  embedding_fn : option (text -> result (list float));
  tokenizer : BM25Tokenizer.t;
  config : HybridSearchConfig
}.

(** [HybridSearchEngine(collection_name=..., embedding_fn=...)] *)
Definition init (c : QdrantClient) (collection : text)
    (embed : option (text -> result (list float))) : t :=
  {| client := c; collection_name := collection; embedding_fn := embed;
     tokenizer := BM25Tokenizer.default; config := default_config |}.

(** *** Python's operators on values *)

Fixpoint is_prefix (p s : text) : bool :=
  match p, s with
  | [], _ => true
  | c :: p', d :: s' => char_eqb c d && is_prefix p' s'
  | _ :: _, [] => false
  end.

Fixpoint is_infix (p s : text) : bool :=
  is_prefix p s || match s with [] => false | _ :: s' => is_infix p s' end.

(** [k in m] for a string [k] *)
Definition contains (k : text) (m : value) : result bool :=
  match m with
  | VDict d => Ok (has_key d k)
  | VList l =>
      Ok (existsb (fun x => match x with VStr s => text_eqb k s | _ => false end) l)
  | VStr s => Ok (is_infix k s)
  | _ => Raise TypeError
  end.

(** [m[k]] for a string [k] *)
Definition getitem (m : value) (k : text) : result value :=
  match m with
  | VDict d => if has_key d k then Ok (dict_get d k VNone) else Raise KeyError
  | _ => Raise TypeError
  end.

(** The items [for x in v] visits. *)
Definition iterate (v : value) : result (list value) :=
  match v with
  | VList l => Ok l
  | VDict d => Ok (map (fun kv => VStr (fst kv)) d)
  | VStr s => Ok (map (fun c => VStr [c]) s)
  | _ => Raise TypeError
  end.

(** [x if x else None] for a list *)
Definition or_none {A} (l : list A) : option (list A) :=
  match l with
  | [] => None
  | _ => Some l
  end.

(** *** [_build_condition] and [_build_filter]

    The conditions are returned as the arguments given to [FieldCondition]
    and to the match classes; the library raises [ValidationError] on
    arguments it does not accept, so the functions below stand for the code
    on the leaves whose conditions are [accepted]. *)

Definition build_condition (condition : value) : result FieldCondition :=
  match condition with
  | VDict c =>
      let key := dict_get c (str "key") VNone in
      let match_ := dict_get c (str "match") (VDict []) in
      rbind (contains (str "value") match_) (fun has_value =>
      if has_value then
        rbind (getitem match_ (str "value")) (fun v =>
        Ok {| fc_key := key; fc_match := MatchValue v |})
      else
        rbind (contains (str "any") match_) (fun has_any =>
        if has_any then
          rbind (getitem match_ (str "any")) (fun v =>
          Ok {| fc_key := key; fc_match := MatchAny v |})
        else
          rbind (contains (str "text") match_) (fun has_text =>
          if has_text then
            rbind (getitem match_ (str "text")) (fun v =>
            Ok {| fc_key := key; fc_match := MatchText v |})
          else
            Ok {| fc_key := key; fc_match := MatchValue (VBool true) |})))
  | _ => Raise AttributeError   (* no method [get] *)
  end.

Definition build_conditions (v : value) : result (list FieldCondition) :=
  rbind (iterate v) (rmap build_condition).

(** The loop over [filter_dict.items()], with the three lists it fills. *)
Fixpoint build_filter_loop (items : dict value)
    (must should must_not : list FieldCondition)
    : result (list FieldCondition * list FieldCondition * list FieldCondition) :=
  match items with
  | [] => Ok (must, should, must_not)
  | (key, v) :: items' =>
      if text_eqb key (str "must") then
        rbind (build_conditions v) (fun cs =>
        build_filter_loop items' (must ++ cs) should must_not)
      else if text_eqb key (str "should") then
        rbind (build_conditions v) (fun cs =>
        build_filter_loop items' must (should ++ cs) must_not)
      else if text_eqb key (str "must_not") then
        rbind (build_conditions v) (fun cs =>
        build_filter_loop items' must should (must_not ++ cs))
      else
        build_filter_loop items'
          (must ++ [{| fc_key := VStr key; fc_match := MatchValue v |}])
          should must_not
  end.

Definition build_filter (filter_dict : dict value) : result Filter :=
  rbind (build_filter_loop filter_dict [] [] []) (fun '(m, s, n) =>
  Ok {| must := or_none m; should := or_none s; must_not := or_none n |}).

(** *** [_get_preset_config] *)

Definition presets : dict preset_config :=
  [(str "code", SearchPresets.code_search);
   (str "semantic", SearchPresets.semantic_search);
   (str "keyword", SearchPresets.keyword_search);
   (str "network", SearchPresets.network_code_search);
   (str "gamecreator", SearchPresets.gamecreator_search);
   (str "docs", SearchPresets.documentation_search)].

Definition get_preset_config (preset : text) : preset_config :=
  dict_get presets preset no_preset.

(** [d.get(key, default)] on a key of a preset *)
Definition get_or {A} (field : option A) (default : A) : A :=
  match field with
  | Some v => v
  | None => default
  end.

(** Truth values: [None], the empty string, the empty list and the empty
    dictionary are false. *)
Definition truthy {A} (x : option (list A)) : bool :=
  match x with
  | Some (_ :: _) => true
  | _ => false
  end.

Definition nonempty {A} (l : list A) : bool :=
  match l with
  | [] => false
  | _ => true
  end.

(** *** The three retrieval paths *)

Definition of_scored (p : ScoredPoint) : SearchResult :=
  {| id := str_id (sp_id p); score := sp_score p;
     payload_ := get_or (sp_payload p) []; vector_name := [] |}.

Definition of_record (p : Record_) : SearchResult :=
  {| id := str_id (rec_id p); score := 1.0;
     payload_ := get_or (rec_payload p) []; vector_name := [] |}.

Definition fallback_scroll_search (self : t) (filter : option Filter)
    (limit : Z) (with_payload : bool) : py event (list SearchResult) :=
  r <- perform (EScroll (collection_name self) filter limit with_payload)
         (scroll (client self) (collection_name self) filter limit with_payload) ;;
  ret (map of_record (fst r)).

Definition fallback_single_search (self : t)
    (dense_vector : option (list float))
    (sparse_indices : list N) (sparse_values : list float)
    (filter : option Filter) (limit : Z) (with_payload : bool)
    : py event (list SearchResult) :=
  if truthy dense_vector then
    let qv := {| nv_name := str "dense";
                 nv_vector := Dense (get_or dense_vector []) |} in
    results <- perform (ESearch (collection_name self) qv filter limit with_payload)
                 (search (client self) (collection_name self) qv filter limit
                    with_payload) ;;
    ret (map of_scored results)
  else if nonempty sparse_indices then
    let qv := {| nv_name := str "sparse";
                 nv_vector := Sparse sparse_indices sparse_values |} in
    results <- perform (ESearch (collection_name self) qv filter limit with_payload)
                 (search (client self) (collection_name self) qv filter limit
                    with_payload) ;;
    ret (map of_scored results)
  else ret [].

Definition prefetch_queries (self : t) (dense_vector : option (list float))
    (sparse_indices : list N) (sparse_values : list float)
    (filter : option Filter) : list Prefetch :=
  (if truthy dense_vector then
     [{| pf_query := Dense (get_or dense_vector []); pf_using := str "dense";
         pf_limit := dense_prefetch_limit (config self); pf_filter := filter |}]
   else [])
  ++
  (if nonempty sparse_indices then
     [{| pf_query := Sparse sparse_indices sparse_values;
         pf_using := str "sparse";
         pf_limit := sparse_prefetch_limit (config self); pf_filter := filter |}]
   else []).

Definition hybrid_search_with_fusion (self : t)
    (dense_vector : option (list float))
    (sparse_indices : list N) (sparse_values : list float)
    (dense_weight sparse_weight : float)
    (filter : option Filter) (limit : Z) (with_payload : bool)
    : py event (list SearchResult) :=
  let prefetch :=
    prefetch_queries self dense_vector sparse_indices sparse_values filter in
  if negb (nonempty prefetch) then
    fallback_scroll_search self filter limit with_payload
  else
    try_except
      (results <- perform
                    (EQueryPoints (collection_name self) prefetch RRF limit
                       with_payload)
                    (query_points (client self) (collection_name self) prefetch
                       RRF limit with_payload) ;;
       ret (map of_scored results))
      (fun e =>
       _ <- perform (EWarning e) (Ok tt) ;;
       fallback_single_search self dense_vector sparse_indices sparse_values
         filter limit with_payload).

(** *** [search] *)

(** The parameters the block [if preset: ...] may rebind. *)
Record resolved := {
  r_dense_weight : float;
  r_sparse_weight : float;
  r_filter_dict : option (dict value);
  r_limit : Z
}.

Definition apply_preset (preset : option text)
    (filter_dict : option (dict value)) (limit : Z)
    (dense_weight sparse_weight : float) : resolved :=
  if truthy preset then
    let preset_config := get_preset_config (get_or preset []) in
    {| r_dense_weight := get_or (p_dense_weight preset_config) dense_weight;
       r_sparse_weight := get_or (p_sparse_weight preset_config) sparse_weight;
       r_filter_dict :=
         match p_filter preset_config with
         | Some f => if negb (truthy filter_dict) then Some f else filter_dict
         | None => filter_dict
         end;
       r_limit := get_or (p_final_limit preset_config) limit |}
  else
    {| r_dense_weight := dense_weight; r_sparse_weight := sparse_weight;
       r_filter_dict := filter_dict; r_limit := limit |}.

Section Search.
Context {U : Unicode}.
(** [time_time n] is what the [n]-th call of [time.time()] returns. *)
Variable time_time : nat -> float.

Definition search (self : t) (query : text)
    (dense_vector : option (list float)) (preset : option text)
    (filter_dict : option (dict value)) (limit : Z)
    (dense_weight sparse_weight : float) (with_payload : bool)
    : py event HybridSearchResponse :=
  let start_time := time_time 0 in
  let cfg := apply_preset preset filter_dict limit dense_weight sparse_weight in
  dense_vector <-
    match dense_vector, embedding_fn self with
    | None, Some embed => v <- perform (EEmbed query) (embed query) ;; ret (Some v)
    | _, _ => ret dense_vector
    end ;;
  let '(sparse_indices, sparse_values) :=
    to_sparse_vector (tokenizer self) query in
  qdrant_filter <-
    (if truthy (r_filter_dict cfg) then
       f <- lift (build_filter (get_or (r_filter_dict cfg) [])) ;; ret (Some f)
     else ret None) ;;
  results <- hybrid_search_with_fusion self dense_vector sparse_indices
               sparse_values (r_dense_weight cfg) (r_sparse_weight cfg)
               qdrant_filter (r_limit cfg) with_payload ;;
  let search_time := ((time_time 1 - start_time) * 1000)%float in
  ret {| results := results;
         total_found := Z.of_nat (List.length results);
         query := query;
         search_time_ms := search_time;
         config_used :=
           {| cu_dense_weight := r_dense_weight cfg;
              cu_sparse_weight := r_sparse_weight cfg;
              cu_preset := preset;
              cu_limit := r_limit cfg |} |}.

End Search.
End HybridSearchEngine.


(** * The vocabulary of the statements *)
Module Vocabulary.
Import Py BM25Tokenizer Effects Qdrant Config HybridSearchEngine.

(** A digit of [hexdigest()]: [0-9a-f]. *)
Definition is_hex (c : char) : bool := is_09 c || ((97 <=? c) && (c <=? 102)).

(** How often [x] occurs in [l]. *)
Definition count (x : text) (l : list text) : nat :=
  List.length (filter (text_eqb x) l).


(** The index returns at most [limit] points, and none for a negative
    [limit]. *)
Definition honours_limit (c : QdrantClient) : Prop :=
  (forall col pf fu limit wp l,
     query_points c col pf fu limit wp = Ok l ->
     (Z.of_nat (List.length l) <= Z.max 0 limit)%Z)
  /\ (forall col qv f limit wp l,
     Qdrant.search c col qv f limit wp = Ok l ->
     (Z.of_nat (List.length l) <= Z.max 0 limit)%Z)
  /\ (forall col f limit wp l next,
     scroll c col f limit wp = Ok (l, next) ->
     (Z.of_nat (List.length l) <= Z.max 0 limit)%Z).

(** The result limit an index call carries. *)
Definition event_limit (ev : event) : option Z :=
  match ev with
  | EQueryPoints _ _ _ limit _ => Some limit
  | ESearch _ _ _ limit _ => Some limit
  | EScroll _ _ limit _ => Some limit
  | _ => None
  end.

Definition dense_prefetch (self : t) (v : list float) (f : option Filter) : Prefetch :=
  {| pf_query := Dense v; pf_using := str "dense";
     pf_limit := dense_prefetch_limit (config self); pf_filter := f |}.

Definition sparse_prefetch (self : t) (si : list N) (sv : list float)
    (f : option Filter) : Prefetch :=
  {| pf_query := Sparse si sv; pf_using := str "sparse";
     pf_limit := sparse_prefetch_limit (config self); pf_filter := f |}.

Definition dense_query (v : list float) : NamedVector :=
  {| nv_name := str "dense"; nv_vector := Dense v |}.

Definition sparse_query (si : list N) (sv : list float) : NamedVector :=
  {| nv_name := str "sparse"; nv_vector := Sparse si sv |}.

End Vocabulary.

(** ** A small index, to run the engine on *)
Module Demo.
Import Py BM25Tokenizer Effects Qdrant Config HybridSearchEngine.

Definition scored (n : Z) (s : float) : ScoredPoint :=
  {| sp_id := IntId n; sp_score := s; sp_payload := None |}.

Definition stored (n : Z) : Record_ := {| rec_id := IntId n; rec_payload := None |}.

Definition up_to {A} (limit : Z) (l : list A) : list A := firstn (Z.to_nat limit) l.

(** Two points; a native search scores them 7.5 and 3.25, a fused query
    reports the scores 0.5 and 0.25 it derives from their ranks. *)
Definition index : QdrantClient := {|
  query_points := fun _ _ _ limit _ => Ok (up_to limit [scored 1 0.5; scored 2 0.25]);
  Qdrant.search := fun _ _ _ limit _ => Ok (up_to limit [scored 1 7.5; scored 2 3.25]);
  scroll := fun _ _ limit _ => Ok (up_to limit [stored 1; stored 2], None)
|}.

(** The same index behind a server without the fused query. *)
Definition index_without_fusion : QdrantClient := {|
  query_points := fun _ _ _ _ _ => Raise (ExternalError (str "fusion unsupported"));
  Qdrant.search := Qdrant.search index;
  scroll := scroll index
|}.

Definition engine : HybridSearchEngine.t := init index COLLECTION_UNIFIED None.

Definition engine_without_fusion : HybridSearchEngine.t :=
  init index_without_fusion COLLECTION_UNIFIED None.

Definition clock (n : nat) : float := PrimFloat.of_uint63 (Uint63.of_Z (Z.of_nat n)).

End Demo.

(** Further vocabulary, for the properties beyond the claims. *)
Module Vocabulary2.
Import Py BM25Tokenizer Effects Qdrant Config HybridSearchEngine Vocabulary.

(** An ASCII letter or digit. *)
Definition is_alnum (c : char) : bool := is_az c || is_AZ c || is_09 c.

(** The first occurrences of the elements of [l], in order. *)
Fixpoint dedup (l : list text) : list text :=
  match l with
  | [] => []
  | x :: l' => x :: filter (fun y => negb (text_eqb x y)) (dedup l')
  end.

(** The sum of the frequencies of a table. *)
Definition total (tf : dict Z) : Z :=
  fold_right (fun kv acc => (snd kv + acc)%Z) 0%Z tf.

(** The keys of a filter dictionary that introduce a list of conditions. *)
Definition clause_key (k : text) : bool :=
  text_eqb k (str "must") || text_eqb k (str "should")
  || text_eqb k (str "must_not").

(** The condition [_build_filter] makes of a plain key-value pair. *)
Definition direct_condition (kv : text * value) : FieldCondition :=
  {| fc_key := VStr (fst kv); fc_match := MatchValue (snd kv) |}.

(** The number of items a [for] loop over [v] visits (none when [v] is not
    iterable). *)
Definition item_count (v : value) : nat :=
  match iterate v with
  | Ok l => List.length l
  | Raise _ => 0
  end.

(** The leaves of a filter dictionary: the items of its clause lists and its
    plain key-value pairs. *)
Definition leaves (fd : dict value) : nat :=
  list_sum (map (fun kv => if clause_key (fst kv) then item_count (snd kv) else 1%nat) fd).

(** [len(x)] for an optional list, [None] counting for none. *)
Definition size {A} (x : option (list A)) : nat :=
  match x with
  | Some l => List.length l
  | None => 0
  end.

(** A value a [for] loop cannot visit. *)
Definition not_iterable (v : value) : bool :=
  match v with
  | VNone | VBool _ | VInt _ | VFloat _ => true
  | _ => false
  end.

Definition is_dict (v : value) : bool :=
  match v with
  | VDict _ => true
  | _ => false
  end.

(** The first stage of [search]: the dense vector, computed by
    [embedding_fn] when the caller gave none and a function is configured. *)
Definition embed_stage (self : HybridSearchEngine.t) (q : text)
    (dv : option (list float)) : py event (option (list float)) :=
  match dv, embedding_fn self with
  | None, Some embed =>
      Effects.bind (perform (EEmbed q) (embed q)) (fun v => ret (Some v))
  | _, _ => ret dv
  end.

(** [self._build_filter(filter_dict) if filter_dict else None] *)
Definition filter_stage (fd : option (dict value)) : result (option Filter) :=
  if truthy fd then rbind (build_filter (get_or fd [])) (fun f => Ok (Some f))
  else Ok None.

(** The library accepts the filter, if there is one. *)
Definition accepted_option (qf : option Filter) : bool :=
  match qf with
  | Some f => accepted_filter f
  | None => true
  end.

Definition is_embed (ev : event) : bool :=
  match ev with
  | EEmbed _ => true
  | _ => false
  end.

(** A call to the index. *)
Definition is_index_call (ev : event) : bool :=
  match ev with
  | EQueryPoints _ _ _ _ _ | ESearch _ _ _ _ _ | EScroll _ _ _ _ => true
  | _ => false
  end.

(** The prefetch queries an index call carries. *)
Definition event_prefetch (ev : event) : list Prefetch :=
  match ev with
  | EQueryPoints _ pf _ _ _ => pf
  | _ => []
  end.

(** Every filter an index call carries: its own, or those of its prefetch
    queries. *)
Definition event_filters (ev : event) : list (option Filter) :=
  match ev with
  | EQueryPoints _ pf _ _ _ => map pf_filter pf
  | ESearch _ _ f _ _ => [f]
  | EScroll _ f _ _ => [f]
  | _ => []
  end.

(** The response [search] assembles from the results [rs]. *)
Definition response (time_time : nat -> float) (q : text) (preset : option text)
    (cfg : resolved) (rs : list SearchResult) : HybridSearchResponse :=
  {| results := rs;
     total_found := Z.of_nat (List.length rs);
     query := q;
     search_time_ms := ((time_time 1%nat - time_time 0%nat) * 1000)%float;
     config_used :=
       {| cu_dense_weight := r_dense_weight cfg;
          cu_sparse_weight := r_sparse_weight cfg;
          cu_preset := preset; cu_limit := r_limit cfg |} |}.

(** The engine [self] with no embedding function. *)
Definition without_embedding (self : HybridSearchEngine.t) : HybridSearchEngine.t :=
  {| client := client self; collection_name := collection_name self;
     embedding_fn := None; tokenizer := tokenizer self; config := config self |}.

(** The collection an index call addresses. *)
Definition event_collection (ev : event) : option text :=
  match ev with
  | EQueryPoints col _ _ _ _ | ESearch col _ _ _ _ | EScroll col _ _ _ => Some col
  | _ => None
  end.

(** The limit [_hybrid_search_with_fusion] gives a prefetch query, by the
    vector it uses. *)
Definition config_prefetch_limit (self : HybridSearchEngine.t) (name : text) : Z :=
  if text_eqb name (str "dense") then dense_prefetch_limit (config self)
  else sparse_prefetch_limit (config self).

(** A response without the two weights it echoes. *)
Definition findings (r : HybridSearchResponse)
    : list SearchResult * Z * text * float * option text * Z :=
  (results r, total_found r, query r, search_time_ms r,
   cu_preset (config_used r), cu_limit (config_used r)).

End Vocabulary2.

(** A second engine on the small index, with an embedding function. *)
Module Demo2.
Import Py BM25Tokenizer Effects Qdrant Config HybridSearchEngine.

Definition embed (q : text) : result (list float) :=
  match q with
  | [] => Raise (ExternalError (str "empty input"))
  | _ => Ok [0.25%float; 0.5%float]
  end.

Definition engine : HybridSearchEngine.t :=
  init Demo.index COLLECTION_UNIFIED (Some embed).

(** The fused query of a search for [rpc] under the preset [code]. *)
Definition code_query (U : Unicode) : event :=
  let v := to_sparse_vector BM25Tokenizer.default (str "rpc") in
  EQueryPoints COLLECTION_UNIFIED
    [{| pf_query := Sparse (fst v) (snd v); pf_using := str "sparse";
        pf_limit := 100;
        pf_filter :=
          Some {| must := Some [{| fc_key := VStr (str "content_type");
                                   fc_match := MatchValue (VStr (str "code")) |}];
                  should := None; must_not := None |} |}]
    RRF 20 true.

End Demo2.

(** ** The convenience functions of [hybrid_search.py] *)
Module Convenience.
Import Py BM25Tokenizer Effects Qdrant Config HybridSearchEngine.

(** The module variable [_search_engine]. *)
Definition global := option HybridSearchEngine.t.

Section Functions.
Context {U : Unicode}.
Variable time_time : nat -> float.
(** The connection [HybridSearchEngine.__init__] opens. *)
Variable connect : QdrantClient.

Definition get_search_engine (embedding_fn : option (text -> result (list float)))
    (_search_engine : global) : HybridSearchEngine.t * global :=
  match _search_engine with
  | None =>
      let engine := init connect COLLECTION_UNIFIED embedding_fn in
      (engine, Some engine)
  | Some engine => (engine, _search_engine)
  end.

(** [hybrid_search(query, preset, limit, **kwargs)], the keyword arguments
    being those of [search]. *)
Definition hybrid_search (query : text) (preset : option text) (limit : Z)
    (dense_vector : option (list float)) (filter_dict : option (dict value))
    (dense_weight sparse_weight : float) (with_payload : bool)
    (_search_engine : global) : py event HybridSearchResponse * global :=
  let '(engine, g) := get_search_engine None _search_engine in
  (search time_time engine query dense_vector preset filter_dict limit
     dense_weight sparse_weight with_payload, g).

(** [[r.payload for r in response.results]] after
    [hybrid_search(query, preset=preset, limit=limit)] *)
Definition payloads (preset : string) (query : text) (limit : Z)
    (_search_engine : global) : py event (list payload) * global :=
  let '(run, g) :=
    hybrid_search query (Some (str preset)) limit None None
      DEFAULT_DENSE_WEIGHT DEFAULT_SPARSE_WEIGHT true _search_engine in
  (Effects.bind run (fun response => ret (map payload_ (results response))), g).

Definition search_code := payloads "code".
Definition search_docs := payloads "docs".
Definition search_network_patterns := payloads "network".

End Functions.
End Convenience.

(** ** The interactive mode of [main] *)
Module Cli.
Import Py BM25Tokenizer Effects Qdrant Config HybridSearchEngine.

Definition slash : char := 47.

(** [s.split(" ", 1)]: the text before the first space and, when there is
    a space, the text after it. *)
Fixpoint split_once (s : text) : text * option text :=
  match s with
  | [] => ([], None)
  | c :: s' =>
      if char_eqb c space then ([], Some s')
      else let '(head, rest) := split_once s' in (c :: head, rest)
  end.

Definition startswith_slash (s : text) : bool :=
  match s with
  | c :: _ => char_eqb c slash
  | [] => false
  end.

(** What one round of the loop does with the line it read. *)
Inductive action :=
  | Break
  | Continue
  | Run (query : text) (preset : option text).

(** What [input()] meets: a line, or an interrupt from the keyboard; after
    the last item the input is at its end and [input()] raises
    [EOFError]. *)
Inductive keyboard :=
  | Line (s : text)
  | Interrupt.

Section Interactive.
Context {U : Unicode}.
Variable time_time : nat -> float.

Fixpoint lstrip (s : text) : text :=
  match s with
  | [] => []
  | c :: s' => if isspace c then lstrip s' else s
  end.

(** [s.strip()]; the white space it removes is the class [\s]. *)
Definition strip (s : text) : text := rev (lstrip (rev (lstrip s))).

(** The body of the loop from [input()] to the call of [search]. *)
Definition interpret (args_preset : option text) (line : text) : action :=
  let query := strip line in
  if mem (lower query) [str "quit"; str "exit"; str "q"] then Break
  else
    let '(preset, query) :=
      if startswith_slash query then
        let '(head, rest) := split_once query in
        (Some (tl head), get_or rest [])
      else (args_preset, query) in
    if nonempty query then Run query preset else Continue.

(** What a round leaves on the terminal: the run of a search (its results,
    or the error it raised, are printed), or the error of [input()]. *)
Inductive round :=
  | Searched (query : text) (preset : option text)
             (run : py event HybridSearchResponse)
  | EndOfInput.

(** The loop [while True] of the interactive mode, for [fuel] rounds:
    [None] when the loop is still running after them. *)
Fixpoint interactive (fuel : nat) (engine : HybridSearchEngine.t)
    (args_preset : option text) (args_limit : Z) (stdin : list keyboard)
    : option (list round) :=
  match fuel with
  | O => None
  | S fuel' =>
      match stdin with
      | [] =>
          (* except Exception as e: print(f"Error: {e}") *)
          option_map (cons EndOfInput)
            (interactive fuel' engine args_preset args_limit [])
      | Interrupt :: _ => Some []
      | Line line :: stdin' =>
          match interpret args_preset line with
          | Break => Some []
          | Continue => interactive fuel' engine args_preset args_limit stdin'
          | Run query preset =>
              option_map
                (cons (Searched query preset
                         (search time_time engine query None preset None
                            args_limit DEFAULT_DENSE_WEIGHT DEFAULT_SPARSE_WEIGHT
                            true)))
                (interactive fuel' engine args_preset args_limit stdin')
          end
      end
  end.

End Interactive.

(** A line that ends the session. *)
Definition ends {U : Unicode} (args_preset : option text) (k : keyboard) : bool :=
  match k with
  | Interrupt => true
  | Line line =>
      match interpret args_preset line with
      | Break => true
      | _ => false
      end
  end.

(** The searches of the lines [stdin], none of which ends the session. *)
Fixpoint searches {U : Unicode} (time_time : nat -> float)
    (engine : HybridSearchEngine.t) (args_preset : option text) (args_limit : Z)
    (stdin : list keyboard) : list round :=
  match stdin with
  | Line line :: stdin' =>
      match interpret args_preset line with
      | Run query preset =>
          [Searched query preset
             (search time_time engine query None preset None args_limit
                DEFAULT_DENSE_WEIGHT DEFAULT_SPARSE_WEIGHT true)]
      | _ => []
      end ++ searches time_time engine args_preset args_limit stdin'
  | _ => []
  end.

End Cli.

(** ** The indexing loops of [index_project.py] *)
Module Indexer.
Import Py Effects.

Record stats := {
  code_files : Z;
  code_symbols : Z;
  doc_files : Z;
  doc_entries : Z;
  errors : Z
}.

Definition no_stats : stats :=
  {| code_files := 0; code_symbols := 0; doc_files := 0; doc_entries := 0;
     errors := 0 |}.

(** [self.stats['errors'] += n] *)
Definition add_errors (n : Z) (st : stats) : stats :=
  {| code_files := code_files st; code_symbols := code_symbols st;
     doc_files := doc_files st; doc_entries := doc_entries st;
     errors := errors st + n |}.

(** [self.stats['errors'] += 1] *)
Definition count_error : stats -> stats := add_errors 1.

(** A code file with [n] symbols: [self.stats['code_files'] += 1], then
    [self.stats['code_symbols'] += 1] for each point. *)
Definition count_code (n : Z) (st : stats) : stats :=
  {| code_files := code_files st + 1; code_symbols := code_symbols st + n;
     doc_files := doc_files st; doc_entries := doc_entries st;
     errors := errors st |}.

(** A documentation file with [n] entries: [self.stats['doc_files'] += 1],
    then [self.stats['doc_entries'] += 1] for each point. *)
Definition count_doc (n : Z) (st : stats) : stats :=
  {| code_files := code_files st; code_symbols := code_symbols st;
     doc_files := doc_files st + 1; doc_entries := doc_entries st + n;
     errors := errors st |}.

(** A counter of files and entries leaves the errors alone. *)
Definition commutes (count : Z -> stats -> stats) : Prop :=
  forall n k st, count n (add_errors k st) = add_errors k (count n st).

Section Indexing.
Context {PointStruct : Type}.
(** [self.client.upsert(collection_name, points, wait=True)] *)
Variable upsert : list PointStruct -> result unit.
Variable index_batch_size : Z.

(** The state of an indexing run: the statistics and the batches sent to
    the index so far, in order. *)
Definition state : Type := stats * list (list PointStruct).

Definition upsert_points (points : list PointStruct) (s : state) : state :=
  let '(st, sent) := s in
  (match upsert points with
   | Ok _ => st
   | Raise _ => count_error st
   end, sent ++ [points]).

(** The loop over the files that are not excluded, each with the points of
    its symbols or entries; [count n] counts a file of [n] points. *)
Fixpoint index_files (count : Z -> stats -> stats)
    (files : list (list PointStruct)) (points : list PointStruct) (s : state)
    : list PointStruct * state :=
  match files with
  | [] => (points, s)
  | file :: files' =>
      let points := points ++ file in
      let s := (count (Z.of_nat (List.length file)) (fst s), snd s) in
      if (index_batch_size <=? Z.of_nat (List.length points))%Z then
        index_files count files' [] (upsert_points points s)
      else index_files count files' points s
  end.

Definition index_with (count : Z -> stats -> stats)
    (files : list (list PointStruct)) (s : state) : state :=
  let '(points, s) := index_files count files [] s in
  match points with
  | [] => s
  | _ => upsert_points points s
  end.

(** The statistics after counting the files [files]. *)
Fixpoint counted (count : Z -> stats -> stats) (files : list (list PointStruct))
    (st : stats) : stats :=
  match files with
  | [] => st
  | file :: files' => counted count files' (count (Z.of_nat (List.length file)) st)
  end.

(** A batch the index refused, and their number. *)
Definition failed (batch : list PointStruct) : bool :=
  match upsert batch with
  | Ok _ => false
  | Raise _ => true
  end.

Definition failures (sent : list (list PointStruct)) : Z :=
  Z.of_nat (List.length (filter failed sent)).

Definition index_code := index_with count_code.
Definition index_docs := index_with count_doc.

Definition index_all (code docs : list (list PointStruct)) (s : state) : state :=
  index_docs docs (index_code code s).

End Indexing.
Arguments state : clear implicits.
End Indexer.

(** * Properties *)

(** ** Characters and strings *)
Module PyFacts.
Import Py.

Lemma all_ascii_cons c s :
  all_ascii (c :: s) = true <-> is_ascii c = true /\ all_ascii s = true.
Proof. unfold all_ascii; simpl. apply andb_true_iff. Qed.

Lemma flat_map_singleton {A B} (f : A -> B) (g : A -> list B) (l : list A) :
  Forall (fun x => g x = [f x]) l -> flat_map g l = map f l.
Proof.
  induction 1 as [|x l Hx _ IH]; simpl; [reflexivity|].
  now rewrite Hx, IH.
Qed.

Lemma all_ascii_Forall s : all_ascii s = true <-> Forall (fun c => is_ascii c = true) s.
Proof. unfold all_ascii. now rewrite forallb_forall, Forall_forall. Qed.

Lemma latin1_lower_ascii s :
  all_ascii s = true -> flat_map latin1_lower_char s = map ascii_lower s.
Proof.
  intros H. apply flat_map_singleton. apply all_ascii_Forall in H.
  eapply Forall_impl; [|exact H]. intros c Hc. unfold latin1_lower_char. now rewrite Hc.
Qed.

Lemma latin1_upper_ascii s :
  all_ascii s = true -> flat_map latin1_upper_char s = map ascii_upper s.
Proof.
  intros H. apply flat_map_singleton. apply all_ascii_Forall in H.
  eapply Forall_impl; [|exact H]. intros c Hc. unfold latin1_upper_char. now rewrite Hc.
Qed.

Lemma latin1_word_ascii c : is_ascii c = true -> latin1_word c = ascii_word c.
Proof. intros H. unfold latin1_word. now rewrite H. Qed.

Lemma latin1_space_ascii c : is_ascii c = true -> latin1_space c = ascii_space c.
Proof. intros H. unfold latin1_space. now rewrite H. Qed.

#[export] Instance latin1 : Unicode := {|
  lower := flat_map latin1_lower_char;
  upper := flat_map latin1_upper_char;
  isword := latin1_word;
  isspace := latin1_space;
  lower_ascii := latin1_lower_ascii;
  upper_ascii := latin1_upper_ascii;
  isword_ascii := latin1_word_ascii;
  isspace_ascii := latin1_space_ascii
|}.



Ltac split_cmp :=
  repeat match goal with
  | |- context [?a <=? ?b] => destruct (N.leb_spec a b)
  | |- context [?a <? ?b] => destruct (N.ltb_spec a b)
  | |- context [?a =? ?b] => destruct (N.eqb_spec a b)
  | H : context [?a <=? ?b] |- _ => destruct (N.leb_spec a b)
  | H : context [?a <? ?b] |- _ => destruct (N.ltb_spec a b)
  | H : context [?a =? ?b] |- _ => destruct (N.eqb_spec a b)
  end.

Ltac char_cases :=
  unfold ascii_lower, ascii_upper, ascii_word, ascii_space, hex_value,
    is_AZ, is_az, is_09, is_ascii, underscore, space in *;
  split_cmp; simpl in *; try discriminate; try reflexivity; try lia.

Lemma text_eqb_eq s t : text_eqb s t = true <-> s = t.
Proof.
  revert t; induction s as [|c s IH]; intros [|d t]; simpl;
    try (split; [discriminate|discriminate]); try tauto.
  unfold char_eqb. rewrite andb_true_iff, N.eqb_eq, IH.
  split; [intros [-> ->]; reflexivity | intros H; injection H; auto].
Qed.

Lemma text_eqb_refl s : text_eqb s s = true.
Proof. now apply text_eqb_eq. Qed.


Lemma ascii_lower_is_ascii c : is_ascii c = true -> is_ascii (ascii_lower c) = true.
Proof. char_cases. Qed.

Lemma ascii_upper_is_ascii c : is_ascii c = true -> is_ascii (ascii_upper c) = true.
Proof. char_cases. Qed.

Lemma ascii_lower_not_AZ c : is_AZ (ascii_lower c) = false.
Proof. char_cases. Qed.

Lemma ascii_lower_upper c : ascii_lower (ascii_upper c) = ascii_lower c.
Proof. char_cases. Qed.

Lemma all_ascii_map f s :
  (forall c, is_ascii c = true -> is_ascii (f c) = true) ->
  all_ascii s = true -> all_ascii (map f s) = true.
Proof.
  intros Hf. induction s as [|c s IH]; [reflexivity|].
  rewrite map_cons, !all_ascii_cons. intros [Hc Hs]. split; auto.
Qed.

Lemma all_ascii_app s t :
  all_ascii (s ++ t) = true <-> all_ascii s = true /\ all_ascii t = true.
Proof. unfold all_ascii. rewrite forallb_app. apply andb_true_iff. Qed.

Lemma all_ascii_str_empty : all_ascii [] = true.
Proof. reflexivity. Qed.

(** Lower-casing the upper-cased text is lower-casing the text, on ASCII. *)
Lemma lower_upper_ascii {U : Unicode} s :
  all_ascii s = true -> lower (upper s) = lower s.
Proof.
  intros H. rewrite (upper_ascii s H).
  rewrite lower_ascii by (apply all_ascii_map; auto using ascii_upper_is_ascii).
  rewrite (lower_ascii s H), map_map.
  apply map_ext. intros c. apply ascii_lower_upper.
Qed.




End PyFacts.

(** ** MD5 *)
Module MD5Facts.
Import Py PyFacts Vocabulary.

(** The test suite of RFC 1321, section A.5. *)
Example md5_empty :
  MD5.hexdigest (encode []) = str "d41d8cd98f00b204e9800998ecf8427e".
Proof. vm_compute. reflexivity. Qed.

Example md5_abc :
  MD5.hexdigest (encode (str "abc")) = str "900150983cd24fb0d6963f7d28e17f72".
Proof. vm_compute. reflexivity. Qed.

Example md5_message_digest :
  MD5.hexdigest (encode (str "message digest"))
  = str "f96b697d7cb7938d525a2f31aaf161d0".
Proof. vm_compute. reflexivity. Qed.

(** Two blocks. *)
Example md5_digits :
  MD5.hexdigest
    (encode (str "12345678901234567890123456789012345678901234567890123456789012345678901234567890"))
  = str "57edf4a22be3c955ac49da2e2107b67a".
Proof. vm_compute. reflexivity. Qed.

Example utf8_sharp_s : encode [0xDF; 97] = [0xC3; 0x9F; 0x61].
Proof. reflexivity. Qed.

Lemma land_255_lt x : N.land x 0xFF < 256.
Proof.
  change 0xFF with (N.ones 8). rewrite N.land_ones.
  apply N.mod_lt. discriminate.
Qed.

Lemma le_bytes_lt n : forall x, Forall (fun b => b < 256) (MD5.le_bytes n x).
Proof.
  induction n as [|n IH]; intros x; simpl; constructor;
    [apply land_255_lt|apply IH].
Qed.

Lemma hex_digit_is_hex n : n < 16 -> is_hex (hex_digit n) = true.
Proof.
  unfold is_hex, hex_digit, is_09. intros H.
  split_cmp; simpl; try reflexivity; lia.
Qed.

Lemma hex_byte_is_hex b : b < 256 -> Forall (fun c => is_hex c = true) (hex_byte b).
Proof.
  intros H. unfold hex_byte. repeat constructor; apply hex_digit_is_hex.
  - rewrite N.shiftr_div_pow2. apply N.Div0.div_lt_upper_bound.
    change (2 ^ 4 * 16) with 256. exact H.
  - change 0xF with (N.ones 4). rewrite N.land_ones.
    apply N.mod_lt. discriminate.
Qed.

(** [hexdigest()] is 32 characters of [0-9a-f]: [int(..., 16)] reads it
    without error. *)
Lemma hexdigest_is_hex msg :
  Forall (fun c => is_hex c = true) (MD5.hexdigest msg)
  /\ List.length (MD5.hexdigest msg) = 32%nat.
Proof.
  unfold MD5.hexdigest, MD5.digest.
  set (st := fold_left MD5.block _ MD5.init).
  split.
  - apply Forall_flat_map.
    repeat (apply Forall_app; split);
      (eapply Forall_impl; [|apply le_bytes_lt]); intros b; apply hex_byte_is_hex.
  - reflexivity.
Qed.

End MD5Facts.

(** ** The tokenizer and the sparse vectorizer *)
Module TokenizerFacts.
Import Py PyFacts BM25Tokenizer Vocabulary.

Lemma camel_case_sub_noop s :
  Forall (fun c => is_AZ c = false) s -> camel_case_sub s = s.
Proof.
  destruct s as [|c s]; [reflexivity|]. intros H. inversion_clear H as [|? ? _ Hs].
  simpl. f_equal. induction Hs as [|d s Hd _ IH]; [reflexivity|].
  simpl. now rewrite Hd, IH.
Qed.

Lemma camel_case_sub_lower s : camel_case_sub (map ascii_lower s) = map ascii_lower s.
Proof.
  apply camel_case_sub_noop, Forall_forall. intros c Hc.
  apply in_map_iff in Hc as (d & <- & _). apply ascii_lower_not_AZ.
Qed.


(** *** The tokenizer on examples *)

Example camel_case_sub_example :
  camel_case_sub (str "NetworkBehaviourX AB") = str "Network Behaviour X  A B".
Proof. reflexivity. Qed.

Example re_split_example :
  @re_split latin1 (str " a  b_") = [[]; str "a"; str "b"; []]
  /\ @re_split latin1 [] = [[]]
  /\ @re_split latin1 (str " ") = [[]; []].
Proof. repeat split. Qed.

Example tokenize_example :
  @tokenize latin1 (str " The quick_brown fox, a Fox; x yY!")
  = map str ["quick"; "brown"; "fox"; "fox"; "yy"]%string.
Proof. vm_compute. reflexivity. Qed.

Example to_sparse_vector_example :
  @to_sparse_vector latin1 BM25Tokenizer.default
    (str "NetworkBehaviour network rpc rpc foo")
  = ([845435382; 2447387858; 3658461868; 2898073819],
     [0.8; 0.8; 1.1428571428571428; 0.4]%float).
Proof. vm_compute. reflexivity. Qed.

Section TwoTables.
Context (U V : Unicode).

Lemma sub_special_agree s :
  all_ascii s = true ->
  @sub_special U s = @sub_special V s /\ all_ascii (@sub_special U s) = true.
Proof.
  induction s as [|c s IH]; [now split|].
  rewrite all_ascii_cons. intros [Hc Hs]. destruct (IH Hs) as [E A].
  unfold sub_special in *. cbn [map]. rewrite E.
  rewrite (@isword_ascii U c Hc), (@isspace_ascii U c Hc),
          (@isword_ascii V c Hc), (@isspace_ascii V c Hc).
  split; [reflexivity|].
  rewrite <- E. apply all_ascii_cons. split; [|exact A].
  destruct (ascii_word c || ascii_space c || (c =? underscore)); [exact Hc|reflexivity].
Qed.

Lemma split_from_agree s : forall cur in_sep,
  all_ascii s = true ->
  @split_from U cur in_sep s = @split_from V cur in_sep s.
Proof.
  induction s as [|c s IH]; intros cur in_sep; [reflexivity|].
  rewrite all_ascii_cons. intros [Hc Hs]. cbn [split_from]. unfold is_sep.
  rewrite (@isspace_ascii U c Hc), (@isspace_ascii V c Hc).
  destruct (ascii_space c || (c =? underscore)); [destruct in_sep|];
    now rewrite ?IH.
Qed.

(** On ASCII text the tokens do not depend on the Unicode tables. *)
Lemma tokenize_agree s :
  all_ascii s = true -> @tokenize U s = @tokenize V s.
Proof.
  intros H. unfold tokenize, re_split.
  rewrite (@lower_ascii U s H), (@lower_ascii V s H), camel_case_sub_lower.
  assert (A : all_ascii (map ascii_lower s) = true)
    by (apply all_ascii_map; auto using ascii_lower_is_ascii).
  destruct (sub_special_agree _ A) as [E A'].
  rewrite <- E. now rewrite (split_from_agree _ [] false A').
Qed.

End TwoTables.

Section Vectorizer.
Context {U : Unicode}.

Lemma tokenize_empty : tokenize [] = [].
Proof.
  unfold tokenize. rewrite (lower_ascii [] eq_refl). reflexivity.
Qed.

Lemma tokenize_lower s t : lower s = lower t -> tokenize s = tokenize t.
Proof. unfold tokenize. now intros ->. Qed.

Lemma tokenize_upper_ascii s :
  all_ascii s = true -> tokenize (upper s) = tokenize s.
Proof. intros H. apply tokenize_lower, lower_upper_ascii, H. Qed.

Lemma to_sparse_vector_tokens self s t :
  tokenize s = tokenize t -> to_sparse_vector self s = to_sparse_vector self t.
Proof. unfold to_sparse_vector. now intros ->. Qed.


End Vectorizer.

(** *** Dictionaries *)

Lemma has_key_In {V} (d : dict V) k : has_key d k = true <-> In k (map fst d).
Proof.
  unfold has_key. rewrite existsb_exists, in_map_iff. split.
  - intros ((k', v) & Hin & E). apply text_eqb_eq in E. simpl in E; subst.
    now exists (k, v).
  - intros ((k', v) & E & Hin). simpl in E; subst.
    exists (k, v). split; [exact Hin|apply text_eqb_refl].
Qed.

Lemma dict_get_absent {V} (d : dict V) k dflt :
  has_key d k = false -> dict_get d k dflt = dflt.
Proof.
  induction d as [|(k', v) d IH]; [reflexivity|]. unfold has_key in *. simpl.
  destruct (text_eqb k' k); [discriminate|exact IH].
Qed.



(** *** Counting term frequencies *)










End TokenizerFacts.

(** ** Computations with events *)
Module EffectsFacts.
Import Effects.

Lemma bind_Ok {E A B} (m : py E A) (f : A -> py E B) tr b :
  bind m f = (tr, Ok b) ->
  exists tr1 a tr2, m = (tr1, Ok a) /\ f a = (tr2, Ok b) /\ tr = tr1 ++ tr2.
Proof.
  destruct m as [tr1 [a|e]]; simpl; [|discriminate].
  destruct (f a) as [tr2 r] eqn:F. intros H. injection H as <- ->.
  now exists tr1, a, tr2.
Qed.

Lemma bind_perform_Ok {E A B} (ev : E) (a : A) (f : A -> py E B) :
  bind (perform ev (Ok a)) f = (ev :: trace (f a), outcome (f a)).
Proof. unfold bind, perform, trace, outcome. now destruct (f a). Qed.

Lemma bind_perform_Raise {E A B} (ev : E) e (f : A -> py E B) :
  bind (perform ev (Raise e)) f = ([ev], Raise e).
Proof. reflexivity. Qed.


Lemma pair_trace_outcome {E A} (m : py E A) : m = (trace m, outcome m).
Proof. now destruct m. Qed.

End EffectsFacts.

(** ** The engine *)
Module EngineFacts.
Import Py PyFacts BM25Tokenizer TokenizerFacts Effects EffectsFacts.
Import Qdrant Config HybridSearchEngine Vocabulary.

Lemma scroll_run self f limit wp :
  fallback_scroll_search self f limit wp
  = ([EScroll (collection_name self) f limit wp],
     rbind (scroll (client self) (collection_name self) f limit wp)
       (fun r => Ok (map of_record (fst r)))).
Proof.
  unfold fallback_scroll_search.
  destruct (scroll _ _ _ _ _) as [r|e]; reflexivity.
Qed.

Lemma single_run_dense self v si sv f limit wp :
  truthy (Some v) = true ->
  fallback_single_search self (Some v) si sv f limit wp
  = ([ESearch (collection_name self) (dense_query v) f limit wp],
     rbind (Qdrant.search (client self) (collection_name self) (dense_query v) f limit wp)
       (fun pts => Ok (map of_scored pts))).
Proof.
  intros T. unfold fallback_single_search. rewrite T. simpl get_or.
  fold (dense_query v). destruct (Qdrant.search _ _ _ _ _ _) as [r|e]; reflexivity.
Qed.

Lemma single_run_sparse self dv si sv f limit wp :
  truthy dv = false -> nonempty si = true ->
  fallback_single_search self dv si sv f limit wp
  = ([ESearch (collection_name self) (sparse_query si sv) f limit wp],
     rbind (Qdrant.search (client self) (collection_name self) (sparse_query si sv) f
              limit wp)
       (fun pts => Ok (map of_scored pts))).
Proof.
  intros T NE. unfold fallback_single_search. rewrite T, NE.
  fold (sparse_query si sv). destruct (Qdrant.search _ _ _ _ _ _) as [r|e]; reflexivity.
Qed.

Lemma single_run_none self dv si sv f limit wp :
  truthy dv = false -> nonempty si = false ->
  fallback_single_search self dv si sv f limit wp = ([], Ok []).
Proof. intros T NE. unfold fallback_single_search. now rewrite T, NE. Qed.

Lemma prefetch_none self dv si sv f :
  nonempty (prefetch_queries self dv si sv f) = false
  <-> truthy dv = false /\ nonempty si = false.
Proof.
  unfold prefetch_queries.
  destruct (truthy dv), (nonempty si); simpl; intuition discriminate.
Qed.

Lemma fusion_run_none self dv si sv dw sw f limit wp :
  truthy dv = false -> nonempty si = false ->
  hybrid_search_with_fusion self dv si sv dw sw f limit wp
  = fallback_scroll_search self f limit wp.
Proof.
  intros T NE. unfold hybrid_search_with_fusion.
  now rewrite (proj2 (prefetch_none self dv si sv f) (conj T NE)).
Qed.

Lemma fusion_run_Ok self dv si sv dw sw f limit wp pts :
  let pf := prefetch_queries self dv si sv f in
  nonempty pf = true ->
  query_points (client self) (collection_name self) pf RRF limit wp = Ok pts ->
  hybrid_search_with_fusion self dv si sv dw sw f limit wp
  = ([EQueryPoints (collection_name self) pf RRF limit wp],
     Ok (map of_scored pts)).
Proof.
  intros pf NE Q. unfold hybrid_search_with_fusion. fold pf. rewrite NE. simpl negb.
  cbv iota. rewrite Q. reflexivity.
Qed.

Lemma fusion_run_Raise self dv si sv dw sw f limit wp e :
  let pf := prefetch_queries self dv si sv f in
  nonempty pf = true ->
  query_points (client self) (collection_name self) pf RRF limit wp = Raise e ->
  hybrid_search_with_fusion self dv si sv dw sw f limit wp
  = (EQueryPoints (collection_name self) pf RRF limit wp :: EWarning e
       :: trace (fallback_single_search self dv si sv f limit wp),
     outcome (fallback_single_search self dv si sv f limit wp)).
Proof.
  intros pf NE Q. unfold hybrid_search_with_fusion. fold pf. rewrite NE. simpl negb.
  cbv iota. rewrite Q. unfold try_except, bind, perform, ret.
  simpl. destruct (fallback_single_search _ _ _ _ _ _ _) as [tr r]. reflexivity.
Qed.

End EngineFacts.

(** * The claims of the specification *)
Module Claims.
Import Py PyFacts BM25Tokenizer TokenizerFacts Effects EffectsFacts.
Import Qdrant Config HybridSearchEngine Vocabulary EngineFacts.

Lemma to_sparse_vector_agree (U V : Unicode) self s :
  all_ascii s = true -> @to_sparse_vector U self s = @to_sparse_vector V self s.
Proof. intros H. unfold to_sparse_vector. now rewrite (tokenize_agree U V s H). Qed.

(** C1. On the input [NetworkBehaviour] the tokenizer lower-cases first, so
    the camel-case pattern finds no capital to split at: the only token is
    [networkbehaviour], and the sparse vector has the single index of that
    token, which is neither the index of [network] nor that of
    [behaviour]. *)
Theorem tokenize_NetworkBehaviour_unsplit (U : Unicode) :
  tokenize (str "NetworkBehaviour") = [str "networkbehaviour"]
  /\ fst (to_sparse_vector BM25Tokenizer.default (str "NetworkBehaviour"))
     = [845435382]
  /\ ~ In (token_hash (str "network"))
          (fst (to_sparse_vector BM25Tokenizer.default (str "NetworkBehaviour")))
  /\ ~ In (token_hash (str "behaviour"))
          (fst (to_sparse_vector BM25Tokenizer.default (str "NetworkBehaviour"))).
Proof.
  rewrite (tokenize_agree U latin1) by reflexivity.
  rewrite (to_sparse_vector_agree U latin1) by reflexivity.
  split; [vm_compute; reflexivity|].
  split; [vm_compute; reflexivity|].
  split; vm_compute; intros [H|[]]; discriminate H.
Qed.



(** C9, as it holds: for every ASCII string [s], [vectorize(s)] and
    [vectorize(s.upper())] are the same sparse vector, and so have the same
    term indices. *)
Theorem to_sparse_vector_upper_ascii (U : Unicode) (self : BM25Tokenizer.t) (s : text) :
  all_ascii s = true ->
  to_sparse_vector self (upper s) = to_sparse_vector self s
  /\ (forall i, In i (fst (to_sparse_vector self (upper s)))
                <-> In i (fst (to_sparse_vector self s))).
Proof.
  intros H.
  assert (E : to_sparse_vector self (upper s) = to_sparse_vector self s)
    by apply to_sparse_vector_tokens, tokenize_upper_ascii, H.
  split; [exact E|]. intros i. now rewrite E.
Qed.

Lemma to_sparse_vector_upper_ascii_witness :
  all_ascii (str "NetworkBehaviour rpc") = true
  /\ to_sparse_vector BM25Tokenizer.default (upper (str "NetworkBehaviour rpc"))
     = to_sparse_vector BM25Tokenizer.default (str "NetworkBehaviour rpc").
Proof.
  split; [reflexivity|].
  exact (proj1 (to_sparse_vector_upper_ascii latin1 BM25Tokenizer.default
                  (str "NetworkBehaviour rpc") eq_refl)).
Defined.

(** C9, as stated, fails beyond ASCII: the string [ßa] (U+00DF, [a]) is its
    own lower case and hashes to 3289710874, while its upper case [SSA]
    lower-cases to [ssa], which hashes to 1411356722. *)
Lemma to_sparse_vector_upper_sharp_s :
  let s := [0xDF; 97] in
  upper s = str "SSA"
  /\ fst (to_sparse_vector BM25Tokenizer.default s) = [3289710874]
  /\ fst (to_sparse_vector BM25Tokenizer.default (upper s)) = [1411356722]
  /\ ~ (forall i, In i (fst (to_sparse_vector BM25Tokenizer.default s))
                  <-> In i (fst (to_sparse_vector BM25Tokenizer.default (upper s)))).
Proof.
  split; [vm_compute; reflexivity|].
  split; [vm_compute; reflexivity|].
  split; [vm_compute; reflexivity|].
  intros H. specialize (H 3289710874). vm_compute in H.
  destruct H as [H _]. destruct (H (or_introl eq_refl)) as [E|[]]. discriminate E.
Qed.

(** *** What a successful [search] returns *)

Lemma truthy_Some {A} (x : option (list A)) :
  truthy x = true -> exists v, x = Some v.
Proof. destruct x as [[|a l]|]; try discriminate. now exists (a :: l). Qed.

Lemma single_length self dv si sv f limit wp tr rs :
  honours_limit (client self) ->
  fallback_single_search self dv si sv f limit wp = (tr, Ok rs) ->
  (Z.of_nat (List.length rs) <= Z.max 0 limit)%Z.
Proof.
  intros (_ & HS & _) H. destruct (truthy dv) eqn:T.
  - destruct (truthy_Some dv T) as [v ->]. rewrite single_run_dense in H by exact T.
    injection H as _ H.
    destruct (Qdrant.search _ _ _ _ _ _) as [pts|e] eqn:Q; [|discriminate].
    injection H as <-. rewrite length_map. eapply HS, Q.
  - destruct (nonempty si) eqn:NE.
    + rewrite single_run_sparse in H by assumption. injection H as _ H.
      destruct (Qdrant.search _ _ _ _ _ _) as [pts|e] eqn:Q; [|discriminate].
      injection H as <-. rewrite length_map. eapply HS, Q.
    + rewrite single_run_none in H by assumption. injection H as _ <-. simpl. lia.
Qed.

Lemma fusion_length self dv si sv dw sw f limit wp tr rs :
  honours_limit (client self) ->
  hybrid_search_with_fusion self dv si sv dw sw f limit wp = (tr, Ok rs) ->
  (Z.of_nat (List.length rs) <= Z.max 0 limit)%Z.
Proof.
  intros HL H. pose proof HL as (HQ & _ & HC).
  destruct (nonempty (prefetch_queries self dv si sv f)) eqn:NE.
  - destruct (query_points (client self) (collection_name self)
                (prefetch_queries self dv si sv f) RRF limit wp) as [pts|e] eqn:Q.
    + rewrite (fusion_run_Ok self dv si sv dw sw f limit wp pts NE Q) in H.
      injection H as _ <-. rewrite length_map. eapply HQ, Q.
    + rewrite (fusion_run_Raise self dv si sv dw sw f limit wp e NE Q) in H.
      injection H as _ H. eapply single_length; [exact HL|].
      rewrite (pair_trace_outcome (fallback_single_search _ _ _ _ _ _ _)).
      now rewrite H.
  - apply prefetch_none in NE as [T NS].
    rewrite fusion_run_none, scroll_run in H by assumption. injection H as _ H.
    destruct (scroll _ _ _ _ _) as [[l next]|e] eqn:Q; [|discriminate].
    injection H as <-. rewrite length_map. eapply HC, Q.
Qed.

Section SearchFacts.
Context {U : Unicode} (time_time : nat -> float).

(** A response of [search] is assembled from the resolved parameters and
    from the results of one run of [_hybrid_search_with_fusion]. *)
Lemma search_Ok_inv self q dv preset fd limit dw sw wp tr resp :
  search time_time self q dv preset fd limit dw sw wp = (tr, Ok resp) ->
  let cfg := apply_preset preset fd limit dw sw in
  total_found resp = Z.of_nat (List.length (results resp))
  /\ query resp = q
  /\ config_used resp
     = {| cu_dense_weight := r_dense_weight cfg;
          cu_sparse_weight := r_sparse_weight cfg;
          cu_preset := preset; cu_limit := r_limit cfg |}
  /\ exists dv' si sv f tr',
       hybrid_search_with_fusion self dv' si sv (r_dense_weight cfg)
         (r_sparse_weight cfg) f (r_limit cfg) wp = (tr', Ok (results resp)).
Proof.
  intros H cfg. unfold search in H. fold cfg in H.
  apply bind_Ok in H as (tr1 & dv' & tr2 & _ & H & _).
  destruct (to_sparse_vector (tokenizer self) q) as [si sv].
  apply bind_Ok in H as (tr3 & f & tr4 & _ & H & _).
  apply bind_Ok in H as (tr5 & rs & tr6 & Hrun & H & _).
  unfold ret in H. injection H as _ <-. cbn.
  repeat split. now exists dv', si, sv, f, tr5.
Qed.

End SearchFacts.

(** C10. Whenever [search] returns a response, its [total_found] is the
    length of its [results]; when the index returns at most [limit] points,
    that count does not exceed the resolved limit. *)
Theorem search_total_found (U : Unicode) (time_time : nat -> float)
    self q dv preset fd limit dw sw wp tr resp :
  search time_time self q dv preset fd limit dw sw wp = (tr, Ok resp) ->
  total_found resp = Z.of_nat (List.length (results resp))
  /\ (honours_limit (client self) ->
      (total_found resp <= Z.max 0 (cu_limit (config_used resp)))%Z).
Proof.
  intros H. apply search_Ok_inv in H as (TF & _ & CU & dv' & si & sv & f & tr' & Hrun).
  split; [exact TF|]. intros HL. rewrite TF, CU. cbn [cu_limit].
  eapply fusion_length; [exact HL|exact Hrun].
Qed.

Lemma demo_honours_limit : honours_limit (client Demo.engine).
Proof.
  assert (B : forall A limit (l l' : list A), Demo.up_to limit l = l' ->
              (Z.of_nat (List.length l') <= Z.max 0 limit)%Z).
  { intros A limit l l' <-. unfold Demo.up_to.
    pose proof (firstn_le_length (Z.to_nat limit) l). lia. }
  repeat split; cbn; intros.
  - injection H as H. eapply B, H.
  - injection H as H. eapply B, H.
  - injection H as H _. eapply B, H.
Qed.

Lemma search_total_found_witness :
  exists resp,
    search Demo.clock Demo.engine (str "spawn player prefab") None None None 1 0.7 0.3 true
    = ([EQueryPoints COLLECTION_UNIFIED
          (prefetch_queries Demo.engine None
             (fst (to_sparse_vector BM25Tokenizer.default (str "spawn player prefab")))
             (snd (to_sparse_vector BM25Tokenizer.default (str "spawn player prefab")))
             None)
          RRF 1 true], Ok resp)
    /\ total_found resp = 1%Z
    /\ (total_found resp <= Z.max 0 (cu_limit (config_used resp)))%Z.
Proof.
  eexists. split; [vm_compute; reflexivity|].
  split; [reflexivity|].
  refine (proj2 (search_total_found latin1 Demo.clock Demo.engine
                   (str "spawn player prefab") None None None 1 0.7 0.3 true _ _ _)
            demo_honours_limit).
  vm_compute; reflexivity.
Defined.

(** *** Presets *)

Lemma known_preset p :
  has_key presets p = true ->
  p <> [] /\ exists w w' fl,
    p_dense_weight (get_preset_config p) = Some w
    /\ p_sparse_weight (get_preset_config p) = Some w'
    /\ p_final_limit (get_preset_config p) = Some fl.
Proof.
  unfold has_key, get_preset_config, presets. cbn [existsb dict_get fst].
  repeat match goal with
  | |- context [text_eqb (str ?n) p] =>
      let E := fresh "E" in
      destruct (text_eqb (str n) p) eqn:E;
      [apply text_eqb_eq in E; subst p; intros _; split; [discriminate|];
       do 3 eexists; split; [|split]; reflexivity
      | cbn [orb] ]
  end.
  discriminate.
Qed.

Lemma unknown_preset p : has_key presets p = false -> get_preset_config p = no_preset.
Proof. apply dict_get_absent. Qed.

(** C2, as it holds: when [search] is called with a preset name, the weights
    of the resolved configuration are the preset's whenever the preset
    defines them, whatever weights the caller supplies: preset [code] with
    [dense_weight = 0.9] resolves to [dense_weight = 0.6] and
    [sparse_weight = 0.4].  The caller's weights apply only under a name that
    is no preset; a non-empty filter of the caller is kept instead of the
    preset's. *)
Theorem search_preset_weights (U : Unicode) (time_time : nat -> float)
    self q dv p fd limit dw sw wp tr resp :
  search time_time self q dv (Some p) fd limit dw sw wp = (tr, Ok resp) ->
  (has_key presets p = true ->
     p_dense_weight (get_preset_config p)
       = Some (cu_dense_weight (config_used resp))
     /\ p_sparse_weight (get_preset_config p)
       = Some (cu_sparse_weight (config_used resp)))
  /\ (p = str "code" ->
     cu_dense_weight (config_used resp) = 0.6%float
     /\ cu_sparse_weight (config_used resp) = 0.4%float)
  /\ (has_key presets p = false ->
     cu_dense_weight (config_used resp) = dw
     /\ cu_sparse_weight (config_used resp) = sw)
  /\ (truthy fd = true ->
     r_filter_dict (apply_preset (Some p) fd limit dw sw) = fd).
Proof.
  intros H. apply search_Ok_inv in H as (_ & _ & CU & _). rewrite CU.
  cbn [config_used cu_dense_weight cu_sparse_weight].
  split; [|split; [|split]].
  - intros K. destruct (known_preset p K) as (NE & w & w' & fl & Ew & Ew' & _).
    unfold apply_preset. destruct p as [|c p']; [congruence|].
    cbn [truthy get_or r_dense_weight r_sparse_weight]. now rewrite Ew, Ew'.
  - intros ->. split; reflexivity.
  - intros K. unfold apply_preset. destruct (truthy (Some p)); [|now split].
    cbn [get_or r_dense_weight r_sparse_weight].
    rewrite (unknown_preset p K). now split.
  - intros T. unfold apply_preset. destruct (truthy (Some p)); [|reflexivity].
    cbn [r_filter_dict]. rewrite T. now destruct (p_filter _).
Qed.

Lemma search_preset_weights_witness :
  exists resp,
    outcome (search Demo.clock Demo.engine (str "rpc damage") None
               (Some (str "code")) None 20 0.9 0.3 true) = Ok resp
    /\ cu_dense_weight (config_used resp) = 0.6%float
    /\ cu_sparse_weight (config_used resp) = 0.4%float.
Proof.
  eexists. split; [vm_compute; reflexivity|].
  refine (proj1 (proj2 (search_preset_weights latin1 Demo.clock Demo.engine
                          (str "rpc damage") None (str "code") None 20 0.9 0.3
                          true _ _ _)) eq_refl).
  vm_compute; reflexivity.
Defined.

(** C2, as stated, fails: preset [code] together with [dense_weight = 0.9]
    resolves to [dense_weight = 0.6], not 0.9. *)
Lemma search_code_preset_ignores_dense_weight :
  exists resp,
    outcome (search Demo.clock Demo.engine (str "rpc damage") None
               (Some (str "code")) None 20 0.9 0.3 true) = Ok resp
    /\ cu_dense_weight (config_used resp) = 0.6%float
    /\ cu_dense_weight (config_used resp) <> 0.9%float.
Proof.
  eexists. split; [vm_compute; reflexivity|]. split; [reflexivity|].
  cbn. intros E. apply (f_equal (fun x => PrimFloat.eqb x 0.9)) in E.
  vm_compute in E. discriminate E.
Qed.

(** *** Filters *)

(** C4, as it holds: a filter leaf with a string key whose match
    specification is a dictionary with none of the keys [value], [any] and
    [text] builds, without any error, the condition that the field equals
    [True], a condition the library accepts. *)
Theorem build_condition_unknown_kind (c m : dict value) (k : text) :
  dict_get c (str "key") VNone = VStr k ->
  dict_get c (str "match") (VDict []) = VDict m ->
  has_key m (str "value") = false ->
  has_key m (str "any") = false ->
  has_key m (str "text") = false ->
  build_condition (VDict c)
  = Ok {| fc_key := VStr k; fc_match := MatchValue (VBool true) |}
  /\ accepted {| fc_key := VStr k; fc_match := MatchValue (VBool true) |} = true.
Proof.
  intros K M V A T. split; [|reflexivity].
  unfold build_condition. rewrite K, M. cbn [contains rbind].
  now rewrite V, A, T.
Qed.

Lemma build_condition_unknown_kind_witness :
  build_condition
    (VDict [(str "key", VStr (str "line")); (str "match", VDict [(str "range", VInt 10)])])
  = Ok {| fc_key := VStr (str "line"); fc_match := MatchValue (VBool true) |}.
Proof.
  exact (proj1 (build_condition_unknown_kind
           [(str "key", VStr (str "line")); (str "match", VDict [(str "range", VInt 10)])]
           [(str "range", VInt 10)] (str "line")
           eq_refl eq_refl eq_refl eq_refl eq_refl)).
Defined.

(** C4, as stated, fails: the filter whose only [must] leaf has the unknown
    match kind [range] is built, and its condition is [line == True]. *)
Lemma build_filter_unknown_kind_no_error :
  build_filter
    [(str "must",
      VList [VDict [(str "key", VStr (str "line"));
                    (str "match", VDict [(str "range", VInt 10)])]])]
  = Ok {| must := Some [{| fc_key := VStr (str "line");
                           fc_match := MatchValue (VBool true) |}];
          should := None; must_not := None |}
  /\ forall e,
       build_filter
         [(str "must",
           VList [VDict [(str "key", VStr (str "line"));
                         (str "match", VDict [(str "range", VInt 10)])]])]
       <> Raise e.
Proof. split; [reflexivity|]. intros e. vm_compute. discriminate. Qed.

(** *** Retrieval paths *)

(** C3, as it holds: with exactly one modality present, the stage issues one
    fused (RRF) query whose only prefetch is that modality's query, with the
    result limit on the fused query; when that query succeeds its points are
    the results, with the scores the fused query reports, and nothing else is
    called; the modality's native search runs only when the fused query
    fails. *)
Theorem fusion_single_modality self dv si sv dw sw f limit wp :
  xorb (truthy dv) (nonempty si) = true ->
  let pf := prefetch_queries self dv si sv f in
  pf = (if truthy dv then [dense_prefetch self (get_or dv []) f]
        else [sparse_prefetch self si sv f])
  /\ (forall pts,
        query_points (client self) (collection_name self) pf RRF limit wp = Ok pts ->
        hybrid_search_with_fusion self dv si sv dw sw f limit wp
        = ([EQueryPoints (collection_name self) pf RRF limit wp],
           Ok (map of_scored pts)))
  /\ (forall e,
        query_points (client self) (collection_name self) pf RRF limit wp = Raise e ->
        exists qv,
          hybrid_search_with_fusion self dv si sv dw sw f limit wp
          = ([EQueryPoints (collection_name self) pf RRF limit wp; EWarning e;
              ESearch (collection_name self) qv f limit wp],
             rbind (Qdrant.search (client self) (collection_name self) qv f limit wp)
               (fun pts => Ok (map of_scored pts)))).
Proof.
  intros X pf.
  assert (NE : nonempty pf = true).
  { unfold pf, prefetch_queries. destruct (truthy dv), (nonempty si);
      try discriminate; reflexivity. }
  split; [|split].
  - unfold pf, prefetch_queries. destruct (truthy dv), (nonempty si);
      try discriminate; reflexivity.
  - intros pts Q. exact (fusion_run_Ok self dv si sv dw sw f limit wp pts NE Q).
  - intros e Q. rewrite (fusion_run_Raise self dv si sv dw sw f limit wp e NE Q).
    destruct (truthy dv) eqn:T.
    + destruct (truthy_Some dv T) as [v ->]. exists (dense_query v).
      now rewrite single_run_dense.
    + destruct (nonempty si) eqn:NS; [|discriminate]. exists (sparse_query si sv).
      now rewrite single_run_sparse.
Qed.

Lemma fusion_single_modality_witness :
  hybrid_search_with_fusion Demo.engine None [2447387858] [0.8%float]
    0.7 0.3 None 20 true
  = ([EQueryPoints COLLECTION_UNIFIED
        [sparse_prefetch Demo.engine [2447387858] [0.8%float] None] RRF 20 true],
     Ok (map of_scored [Demo.scored 1 0.5; Demo.scored 2 0.25])).
Proof.
  exact (proj1 (proj2 (fusion_single_modality Demo.engine None [2447387858]
                         [0.8%float] 0.7 0.3 None 20 true eq_refl))
           [Demo.scored 1 0.5; Demo.scored 2 0.25] eq_refl).
Defined.

(** C3, as stated, fails: for the query [network] without a dense vector the
    only call is a fused query, no native search runs, and the scores
    returned, 0.5 and 0.25, are those of the fused query, not the scores 7.5
    and 3.25 of the sparse search. *)
Lemma search_sparse_only_is_fused :
  let run := search Demo.clock Demo.engine (str "network") None None None 20
               0.7 0.3 true in
  trace run
  = [EQueryPoints COLLECTION_UNIFIED
       [sparse_prefetch Demo.engine [2447387858] [0.8%float] None] RRF 20 true]
  /\ (forall col qv f limit wp, ~ In (ESearch col qv f limit wp) (trace run))
  /\ (exists resp,
        outcome run = Ok resp
        /\ map score (results resp) = [0.5; 0.25]%float
        /\ Qdrant.search (client Demo.engine) COLLECTION_UNIFIED
             (sparse_query [2447387858] [0.8%float]) None 20 true
           = Ok [Demo.scored 1 7.5; Demo.scored 2 3.25]
        /\ map score (results resp)
           <> map sp_score [Demo.scored 1 7.5; Demo.scored 2 3.25]).
Proof.
  split; [vm_compute; reflexivity|]. split.
  - intros col qv f limit wp. vm_compute. intros [H|[]]. discriminate H.
  - eexists. split; [vm_compute; reflexivity|].
    split; [reflexivity|]. split; [reflexivity|].
    intros E.
    apply (f_equal (fun l => PrimFloat.eqb (hd 0%float l) 7.5)) in E.
    vm_compute in E. discriminate E.
Qed.



(** *** Queries without text, and queries nobody validates *)



Section Unvalidated.
Context {U : Unicode} (time_time : nat -> float).


End Unvalidated.

Section Resolved.
Context {U : Unicode} (time_time : nat -> float).



End Resolved.







End Claims.

(** * Further properties of the code *)
Module Extras.
Import Py PyFacts BM25Tokenizer TokenizerFacts Effects EffectsFacts.
Import Qdrant Config HybridSearchEngine Vocabulary Vocabulary2 EngineFacts.

(** ** [BM25Tokenizer.tokenize] *)

Section Tokens.
Context {U : Unicode}.

Lemma space_is_sep : is_sep space = true.
Proof. unfold is_sep. now rewrite (isspace_ascii space eq_refl). Qed.

Lemma sub_special_chars s :
  Forall (fun c => isword c = true \/ is_sep c = true) (sub_special s).
Proof.
  unfold sub_special. apply Forall_forall. intros c Hc.
  apply in_map_iff in Hc as (d & <- & _).
  destruct (isword d) eqn:W; cbn [orb]; [now left|]. right.
  destruct (isspace d) eqn:S; cbn [orb]; [unfold is_sep; now rewrite S|].
  destruct (d =? underscore) eqn:E; [|apply space_is_sep].
  unfold is_sep. rewrite E. apply orb_true_r.
Qed.

Lemma split_from_chars (R : char -> Prop) s : forall cur in_sep,
  Forall R s -> Forall (fun c => R c /\ is_sep c = false) cur ->
  Forall (Forall (fun c => R c /\ is_sep c = false)) (split_from cur in_sep s).
Proof.
  induction s as [|c s IH]; intros cur in_sep Hs Hcur; cbn [split_from].
  - constructor; [|constructor]. now apply Forall_rev.
  - inversion_clear Hs as [|? ? Hc Hs']. destruct (is_sep c) eqn:E.
    + destruct in_sep; [now apply IH|].
      constructor; [now apply Forall_rev|now apply IH].
    + apply IH; [exact Hs'|]. constructor; [now split|exact Hcur].
Qed.

(** Every token has at least two characters, is no stop word, and is made
    of word characters that are neither white space nor underscores. *)
Theorem tokenize_tokens s t :
  In t (tokenize s) ->
  (2 <= len t)%Z
  /\ mem t stop_words = false
  /\ Forall (fun c => isword c = true /\ isspace c = false /\ c <> underscore) t.
Proof.
  unfold tokenize, re_split. intros H. apply filter_In in H as [Hin Hf].
  apply andb_true_iff in Hf as [L M]. split; [now apply Z.leb_le|].
  split; [now apply negb_true_iff|].
  pose proof (split_from_chars _ _ [] false
                (sub_special_chars (camel_case_sub (lower s))) (Forall_nil _)) as F.
  rewrite Forall_forall in F. specialize (F t Hin).
  eapply Forall_impl; [|exact F]. cbv beta. intros c [[W|S] N].
  - unfold is_sep in N. apply orb_false_iff in N as [N1 N2].
    repeat split; try assumption. intros ->. discriminate N2.
  - congruence.
Qed.

End Tokens.

Lemma tokenize_tokens_witness :
  In (str "quick") (@tokenize latin1 (str "the quick_brown fox"))
  /\ (2 <= len (str "quick"))%Z.
Proof.
  assert (H : In (str "quick") (@tokenize latin1 (str "the quick_brown fox")))
    by (vm_compute; left; reflexivity).
  split; [exact H|].
  exact (proj1 (@tokenize_tokens latin1 (str "the quick_brown fox") (str "quick") H)).
Defined.

Section Identifiers.
Context {U : Unicode}.

Lemma alnum_is_ascii c : is_alnum c = true -> is_ascii c = true.
Proof. unfold is_alnum. char_cases. Qed.

Lemma alnum_lower_range c :
  is_alnum c = true ->
  97 <= ascii_lower c <= 122 \/ 48 <= ascii_lower c <= 57.
Proof.
  unfold is_alnum, ascii_lower. destruct (is_AZ c) eqn:E; revert E; char_cases.
Qed.

Lemma lower_range_word d :
  97 <= d <= 122 \/ 48 <= d <= 57 ->
  ascii_word d = true /\ ascii_space d = false /\ (d =? underscore) = false.
Proof. intros H. split; [|split]; char_cases. Qed.

Lemma alnum_lower_word c :
  is_alnum c = true ->
  ascii_word (ascii_lower c) = true
  /\ ascii_space (ascii_lower c) = false
  /\ (ascii_lower c =? underscore) = false.
Proof. intros H. apply lower_range_word, alnum_lower_range, H. Qed.

Lemma sub_special_word s :
  Forall (fun c => isword c = true) s -> sub_special s = s.
Proof.
  unfold sub_special. induction 1 as [|c s Hc _ IH]; [reflexivity|].
  cbn [map]. now rewrite Hc, IH.
Qed.

Lemma split_from_no_sep s : forall cur,
  Forall (fun c => is_sep c = false) s ->
  split_from cur false s = [rev cur ++ s].
Proof.
  induction s as [|c s IH]; intros cur H; cbn [split_from].
  - now rewrite app_nil_r.
  - inversion_clear H as [|? ? Hc Hs]. rewrite Hc, IH by exact Hs.
    cbn [rev]. now rewrite <- app_assoc.
Qed.

(** An identifier, that is a text of ASCII letters and digits only, is never
    split, whatever its capitals: it gives its lower case as the only
    token, or no token when that is shorter than two characters or a stop
    word. *)
Theorem tokenize_identifier s :
  Forall (fun c => is_alnum c = true) s ->
  tokenize s
  = if (2 <=? len s)%Z && negb (mem (map ascii_lower s) stop_words)
    then [map ascii_lower s] else [].
Proof.
  intros H.
  assert (A : all_ascii s = true).
  { apply all_ascii_Forall. eapply Forall_impl; [|exact H].
    intros c. apply alnum_is_ascii. }
  assert (L : Forall (fun c => is_ascii c = true
                        /\ ascii_word c = true /\ ascii_space c = false
                        /\ (c =? underscore) = false) (map ascii_lower s)).
  { apply Forall_forall. intros c Hc. apply in_map_iff in Hc as (d & <- & Hd).
    rewrite Forall_forall in H. split.
    - apply ascii_lower_is_ascii, alnum_is_ascii, H, Hd.
    - apply alnum_lower_word, H, Hd. }
  unfold tokenize, re_split.
  rewrite (lower_ascii s A), camel_case_sub_lower.
  rewrite sub_special_word, split_from_no_sep.
  - cbn [rev app filter]. unfold len. now rewrite length_map.
  - eapply Forall_impl; [|exact L]. intros c (Ha & _ & Hs & Hu).
    unfold is_sep. now rewrite (isspace_ascii c Ha), Hs, Hu.
  - eapply Forall_impl; [|exact L]. intros c (Ha & Hw & _).
    now rewrite (isword_ascii c Ha).
Qed.

End Identifiers.

Lemma tokenize_identifier_witness :
  @tokenize latin1 (str "ServerRpcHandler2") = [str "serverrpchandler2"].
Proof.
  refine (eq_trans (@tokenize_identifier latin1 (str "ServerRpcHandler2") _) _).
  - repeat constructor.
  - reflexivity.
Defined.

Section NoWords.
Context {U : Unicode}.

Lemma split_from_all_sep s : forall in_sep,
  Forall (fun c => is_sep c = true) s ->
  Forall (fun t => t = []) (split_from [] in_sep s).
Proof.
  induction s as [|c s IH]; intros in_sep H; cbn [split_from].
  - repeat constructor.
  - inversion_clear H as [|? ? Hc Hs]. rewrite Hc.
    destruct in_sep; [now apply IH|]. constructor; [reflexivity|now apply IH].
Qed.

Lemma nonword_lower c :
  is_ascii c = true ->
  ascii_word c = false \/ c = underscore ->
  ascii_word (ascii_lower c) = false \/ ascii_lower c = underscore.
Proof. intros A [W| ->]; [left|right; reflexivity]. revert A W. char_cases. Qed.

(** A text without letters and digits (punctuation, white space,
    underscores; the empty text) has no token, and its sparse vector is
    empty. *)
Theorem to_sparse_vector_no_words self s :
  all_ascii s = true ->
  Forall (fun c => ascii_word c = false \/ c = underscore) s ->
  tokenize s = [] /\ to_sparse_vector self s = ([], []).
Proof.
  intros A H.
  assert (T : tokenize s = []).
  { unfold tokenize, re_split.
    rewrite (lower_ascii s A), camel_case_sub_lower.
    assert (S : Forall (fun c => is_sep c = true)
                  (sub_special (map ascii_lower s))).
    { unfold sub_special. rewrite map_map. apply Forall_forall. intros c Hc.
      apply in_map_iff in Hc as (d & <- & Hd).
      apply all_ascii_Forall in A. rewrite Forall_forall in A, H.
      pose proof (ascii_lower_is_ascii d (A d Hd)) as Al.
      destruct (isword (ascii_lower d) || isspace (ascii_lower d)
                || (ascii_lower d =? underscore)) eqn:K; [|apply space_is_sep].
      unfold is_sep.
      destruct (nonword_lower d (A d Hd) (H d Hd)) as [W|E].
      - now rewrite (isword_ascii _ Al), W in K.
      - rewrite E. apply orb_true_r. }
    pose proof (split_from_all_sep _ false S) as E.
    induction E as [|t l -> _ IH]; [reflexivity|exact IH]. }
  split; [exact T|]. unfold to_sparse_vector. now rewrite T.
Qed.

End NoWords.

Lemma to_sparse_vector_no_words_witness :
  @to_sparse_vector latin1 BM25Tokenizer.default (str "-- _ (?!) __") = ([], []).
Proof.
  refine (proj2 (@to_sparse_vector_no_words latin1 BM25Tokenizer.default
                   (str "-- _ (?!) __") eq_refl _)).
  repeat (constructor; [first [left; reflexivity | right; reflexivity]|]).
  constructor.
Defined.

(** ** [BM25Tokenizer.to_sparse_vector] *)

Lemma filter_filter_comm {A} (p q : A -> bool) l :
  filter p (filter q l) = filter q (filter p l).
Proof.
  induction l as [|x l IH]; [reflexivity|]. simpl.
  destruct (p x) eqn:P, (q x) eqn:Q; simpl; rewrite ?P, ?Q, IH; reflexivity.
Qed.

Lemma filter_both {A} (p q : A -> bool) l :
  filter (fun x => p x && q x) l = filter q (filter p l).
Proof.
  induction l as [|x l IH]; [reflexivity|]. simpl.
  destruct (p x) eqn:P; simpl; [destruct (q x); now rewrite IH|exact IH].
Qed.

Lemma filter_absorb (p : text -> bool) x l :
  p x = false ->
  filter p (filter (fun y => negb (text_eqb x y)) l) = filter p l.
Proof.
  intros Px. induction l as [|y l IH]; [reflexivity|]. simpl.
  destruct (text_eqb x y) eqn:E; simpl.
  - apply text_eqb_eq in E; subst y. now rewrite Px.
  - now rewrite IH.
Qed.

Lemma dedup_filter (p : text -> bool) l : dedup (filter p l) = filter p (dedup l).
Proof.
  induction l as [|x l IH]; [reflexivity|]. simpl.
  destruct (p x) eqn:Px; simpl.
  - now rewrite IH, filter_filter_comm.
  - now rewrite IH, filter_absorb.
Qed.

Lemma dedup_length l : (List.length (dedup l) <= List.length l)%nat.
Proof.
  induction l as [|x l IH]; [apply le_n|]. simpl.
  pose proof (filter_length_le (fun y => negb (text_eqb x y)) (dedup l)). lia.
Qed.

Lemma has_key_incr tf t x :
  has_key (dict_incr tf t) x = has_key tf x || text_eqb t x.
Proof.
  unfold has_key. induction tf as [|(k, v) tf IH]; simpl.
  - apply orb_false_r.
  - destruct (text_eqb k t) eqn:E; simpl.
    + apply text_eqb_eq in E; subst k.
      destruct (text_eqb t x); simpl; [reflexivity|now rewrite orb_false_r].
    + rewrite IH. apply orb_assoc.
Qed.

Lemma dict_incr_keys_list tf t :
  map fst (dict_incr tf t)
  = if has_key tf t then map fst tf else map fst tf ++ [t].
Proof.
  unfold has_key. induction tf as [|(k, v) tf IH]; [reflexivity|]. simpl.
  destruct (text_eqb k t) eqn:E; simpl; [reflexivity|].
  rewrite IH. now destruct (existsb _ tf).
Qed.

Lemma fold_incr_keys_list toks : forall tf,
  map fst (fold_left dict_incr toks tf)
  = map fst tf ++ dedup (filter (fun t => negb (has_key tf t)) toks).
Proof.
  induction toks as [|t toks IH]; intros tf; simpl.
  - now rewrite app_nil_r.
  - rewrite IH, dict_incr_keys_list. destruct (has_key tf t) eqn:K; simpl.
    + f_equal. f_equal. apply filter_ext_in. intros x _.
      rewrite has_key_incr. destruct (text_eqb t x) eqn:E; [|now rewrite orb_false_r].
      apply text_eqb_eq in E; subst x. now rewrite K.
    + rewrite <- app_assoc. simpl. f_equal. f_equal.
      rewrite <- dedup_filter. f_equal.
      rewrite <- filter_both. apply filter_ext. intros x.
      rewrite has_key_incr. apply negb_orb.
Qed.

Lemma total_incr tf t : total (dict_incr tf t) = (total tf + 1)%Z.
Proof.
  unfold total. induction tf as [|(k, v) tf IH]; simpl; [reflexivity|].
  destruct (text_eqb k t); simpl; lia.
Qed.

Lemma total_fold toks : forall tf,
  total (fold_left dict_incr toks tf) = (total tf + Z.of_nat (List.length toks))%Z.
Proof.
  induction toks as [|t toks IH]; intros tf; simpl List.length; simpl fold_left.
  - lia.
  - rewrite IH, total_incr. lia.
Qed.

(** For a tokenizer with [0 < k1] (no division by zero), the entries of the
    sparse vector stand in the order in which the tokens first occur, one
    for each distinct token: the two lists have the same length, at most the
    number of tokens, and the frequencies counted sum to the number of
    tokens. *)
Theorem to_sparse_vector_shape (U : Unicode) (self : BM25Tokenizer.t) (s : text) :
  (0 <? k1 self)%float = true ->
  let toks := tokenize s in
  map fst (term_frequencies toks) = dedup toks
  /\ fst (to_sparse_vector self s) = map token_hash (dedup toks)
  /\ List.length (fst (to_sparse_vector self s)) = List.length (dedup toks)
  /\ List.length (snd (to_sparse_vector self s)) = List.length (dedup toks)
  /\ (List.length (dedup toks) <= List.length toks)%nat
  /\ total (term_frequencies toks) = Z.of_nat (List.length toks).
Proof.
  intros _ toks.
  assert (K : map fst (term_frequencies toks) = dedup toks).
  { unfold term_frequencies. rewrite fold_incr_keys_list. simpl. f_equal.
    clear. induction toks as [|t l IH]; [reflexivity|]. simpl. now rewrite IH. }
  assert (I : fst (to_sparse_vector self s) = map token_hash (dedup toks)).
  { unfold to_sparse_vector. fold toks. cbn [fst]. rewrite <- K, map_map.
    apply map_ext. now intros [t c]. }
  split; [exact K|]. split; [exact I|]. split; [|split; [|split]].
  - now rewrite I, length_map.
  - unfold to_sparse_vector. fold toks. cbn [snd].
    now rewrite length_map, <- K, length_map.
  - apply dedup_length.
  - unfold term_frequencies. now rewrite total_fold.
Qed.

Lemma to_sparse_vector_shape_witness :
  fst (to_sparse_vector BM25Tokenizer.default (str "spawn the Player, spawn RPC"))
  = map token_hash [str "spawn"; str "player"; str "rpc"]
  /\ total (term_frequencies (@tokenize latin1 (str "spawn the Player, spawn RPC")))
     = 4%Z.
Proof.
  pose proof (to_sparse_vector_shape latin1 BM25Tokenizer.default
                (str "spawn the Player, spawn RPC") eq_refl) as (_ & I & _ & _ & _ & T).
  split; [exact I|exact T].
Defined.

(** ** [_build_filter] and [_build_condition] *)

Lemma clause_key_cases k :
  clause_key k = false ->
  text_eqb k (str "must") = false
  /\ text_eqb k (str "should") = false
  /\ text_eqb k (str "must_not") = false.
Proof.
  unfold clause_key. intros H.
  apply orb_false_iff in H as [H H3]. apply orb_false_iff in H as [H1 H2]. auto.
Qed.

Lemma build_filter_loop_direct fd : forall m s n,
  Forall (fun kv => clause_key (fst kv) = false) fd ->
  build_filter_loop fd m s n = Ok (m ++ map direct_condition fd, s, n).
Proof.
  induction fd as [|(k, v) fd IH]; intros m s n H; cbn [build_filter_loop map].
  - now rewrite app_nil_r.
  - inversion_clear H as [|? ? Hk Hfd]. cbn [fst] in Hk.
    destruct (clause_key_cases k Hk) as (-> & -> & ->).
    rewrite IH by exact Hfd. now rewrite <- app_assoc.
Qed.

(** A filter of plain key-value pairs (no [must], [should] or [must_not]
    key) whose values are booleans, integers or strings always builds: each
    pair becomes one exact-value condition under [must], in the order of the
    dictionary, and [should] and [must_not] stay [None]. *)
Theorem build_filter_plain fd :
  Forall (fun kv => clause_key (fst kv) = false
                    /\ accepted_match (MatchValue (snd kv)) = true) fd ->
  build_filter fd
  = Ok {| must := or_none (map direct_condition fd);
          should := None; must_not := None |}
  /\ Forall (fun c => accepted c = true) (map direct_condition fd).
Proof.
  intros H. split.
  - unfold build_filter. rewrite (build_filter_loop_direct fd [] [] []); [reflexivity|].
    eapply Forall_impl; [|exact H]. now intros kv [K _].
  - apply Forall_map. eapply Forall_impl; [|exact H]. now intros kv [_ A].
Qed.

Lemma build_filter_plain_witness :
  build_filter [(str "content_type", VStr (str "code")); (str "is_network", VBool true)]
  = Ok {| must := Some [{| fc_key := VStr (str "content_type");
                           fc_match := MatchValue (VStr (str "code")) |};
                        {| fc_key := VStr (str "is_network");
                           fc_match := MatchValue (VBool true) |}];
          should := None; must_not := None |}.
Proof.
  refine (proj1 (build_filter_plain
            [(str "content_type", VStr (str "code")); (str "is_network", VBool true)] _)).
  repeat (constructor; [split; reflexivity|]). constructor.
Defined.

Lemma rmap_length {A B} (f : A -> result B) l l' :
  rmap f l = Ok l' -> List.length l' = List.length l.
Proof.
  revert l'. induction l as [|x l IH]; intros l'; cbn [rmap].
  - now intros [= <-].
  - destruct (f x) as [y|e]; [|discriminate]. cbn [rbind].
    destruct (rmap f l) as [ys|e]; [|discriminate]. cbn [rbind].
    intros [= <-]. simpl. now rewrite (IH ys eq_refl).
Qed.

Lemma build_conditions_length v cs :
  build_conditions v = Ok cs -> List.length cs = item_count v.
Proof.
  unfold build_conditions, item_count.
  destruct (iterate v) as [l|e]; [|discriminate]. cbn [rbind]. apply rmap_length.
Qed.

Lemma build_filter_loop_leaves fd : forall m s n m' s' n',
  build_filter_loop fd m s n = Ok (m', s', n') ->
  (List.length m' + List.length s' + List.length n'
   = List.length m + List.length s + List.length n + leaves fd)%nat.
Proof.
  unfold leaves, clause_key, list_sum.
  induction fd as [|(k, v) fd IH]; intros m s n m' s' n' H;
    cbn [build_filter_loop] in H.
  - injection H as <- <- <-. simpl. lia.
  - cbn [map fold_right fst snd].
    destruct (text_eqb k (str "must")); cbn [orb].
    { destruct (build_conditions v) as [cs|e] eqn:B; [|discriminate].
      cbn [rbind] in H. apply IH in H. apply build_conditions_length in B.
      rewrite length_app in H. lia. }
    destruct (text_eqb k (str "should")); cbn [orb].
    { destruct (build_conditions v) as [cs|e] eqn:B; [|discriminate].
      cbn [rbind] in H. apply IH in H. apply build_conditions_length in B.
      rewrite length_app in H. lia. }
    destruct (text_eqb k (str "must_not")); cbn [orb].
    { destruct (build_conditions v) as [cs|e] eqn:B; [|discriminate].
      cbn [rbind] in H. apply IH in H. apply build_conditions_length in B.
      rewrite length_app in H. lia. }
    apply IH in H. rewrite length_app in H. cbn [List.length] in H. lia.
Qed.

Lemma or_none_size {A} (l : list A) : size (or_none l) = List.length l.
Proof. now destruct l. Qed.

(** When a filter builds (into conditions the library accepts), no leaf of
    the dictionary is dropped or doubled: the conditions under [must],
    [should] and [must_not] are as many as the items of the clause lists and
    the plain key-value pairs together. *)
Theorem build_filter_leaves fd f :
  build_filter fd = Ok f ->
  accepted_filter f = true ->
  (size (must f) + size (should f) + size (must_not f) = leaves fd)%nat.
Proof.
  intros B _. revert B. unfold build_filter.
  destruct (build_filter_loop fd [] [] []) as [[[m s] n]|e] eqn:L; [|discriminate].
  cbn [rbind]. intros [= <-]. cbn [must should must_not].
  rewrite !or_none_size. apply build_filter_loop_leaves in L. simpl in L. lia.
Qed.

Lemma build_filter_leaves_witness :
  exists f,
    build_filter (get_or (p_filter SearchPresets.gamecreator_search) []) = Ok f
    /\ (size (must f) + size (should f) + size (must_not f) = 3)%nat.
Proof.
  eexists. split; [reflexivity|].
  exact (build_filter_leaves
           (get_or (p_filter SearchPresets.gamecreator_search) []) _ eq_refl eq_refl).
Defined.

Lemma build_filter_loop_clauses_empty fd : forall m s n,
  Forall (fun kv => clause_key (fst kv) = true /\ item_count (snd kv) = 0%nat
                    /\ not_iterable (snd kv) = false) fd ->
  build_filter_loop fd m s n = Ok (m, s, n).
Proof.
  induction fd as [|(k, v) fd IH]; intros m s n H; cbn [build_filter_loop].
  - reflexivity.
  - inversion_clear H as [|? ? Hkv Hfd]. cbn [fst snd] in Hkv.
    destruct Hkv as (Hk & Hc & Hi).
    assert (B : build_conditions v = Ok []).
    { unfold build_conditions, item_count in *.
      destruct v as [| | | |t|l|d]; try discriminate; cbn [iterate] in *;
        cbn [rbind].
      - destruct t; [reflexivity|discriminate].
      - destruct l; [reflexivity|discriminate].
      - destruct d; [reflexivity|discriminate]. }
    unfold clause_key in Hk. rewrite B. cbn [rbind]. rewrite !app_nil_r.
    destruct (text_eqb k (str "must")); [now apply IH|].
    destruct (text_eqb k (str "should")); [now apply IH|].
    destruct (text_eqb k (str "must_not")); [now apply IH|discriminate].
Qed.

(** Empty clause lists constrain nothing: a dictionary that only has
    [must], [should] or [must_not] keys, each with an empty list (or empty
    string or dictionary), builds the filter whose three fields are [None],
    although the dictionary itself is not empty. *)
Theorem build_filter_empty_clauses fd :
  Forall (fun kv => clause_key (fst kv) = true /\ item_count (snd kv) = 0%nat
                    /\ not_iterable (snd kv) = false) fd ->
  build_filter fd = Ok {| must := None; should := None; must_not := None |}.
Proof.
  intros H. unfold build_filter.
  now rewrite (build_filter_loop_clauses_empty fd [] [] [] H).
Qed.

Lemma build_filter_empty_clauses_witness :
  build_filter [(str "must", VList []); (str "must_not", VList [])]
  = Ok {| must := None; should := None; must_not := None |}.
Proof.
  refine (build_filter_empty_clauses
            [(str "must", VList []); (str "must_not", VList [])] _).
  repeat constructor.
Defined.

Lemma rmap_raise {A B} (f : A -> result B) l x e :
  In x l -> f x = Raise e -> exists e', rmap f l = Raise e'.
Proof.
  induction l as [|y l IH]; intros Hin Hx; [contradiction|]. cbn [rmap].
  destruct Hin as [->|Hin].
  - rewrite Hx. now eexists.
  - destruct (f y) as [b|e1]; [|now eexists]. cbn [rbind].
    destruct (IH Hin Hx) as [e' ->]. now eexists.
Qed.

Lemma build_condition_not_dict x :
  is_dict x = false -> build_condition x = Raise AttributeError.
Proof. now destruct x. Qed.

Lemma build_conditions_malformed v :
  not_iterable v = true
  \/ (exists l x, iterate v = Ok l /\ In x l /\ is_dict x = false) ->
  exists e, build_conditions v = Raise e.
Proof.
  unfold build_conditions. intros [N|(l & x & I & Hin & D)].
  - destruct v; try discriminate; now eexists.
  - rewrite I. cbn [rbind].
    exact (rmap_raise build_condition l x _ Hin (build_condition_not_dict x D)).
Qed.

Lemma build_filter_loop_raises fd k v : forall m s n,
  In (k, v) fd -> clause_key k = true ->
  (exists e, build_conditions v = Raise e) ->
  exists e, build_filter_loop fd m s n = Raise e.
Proof.
  induction fd as [|(k', v') fd IH]; intros m s n Hin Hk [e0 B]; [contradiction|].
  cbn [build_filter_loop]. destruct Hin as [[= -> ->]|Hin].
  - unfold clause_key in Hk. rewrite B. cbn [rbind].
    destruct (text_eqb k (str "must")); [now eexists|].
    destruct (text_eqb k (str "should")); [now eexists|].
    destruct (text_eqb k (str "must_not")); [now eexists|discriminate].
  - assert (R : forall m s n, exists e, build_filter_loop fd m s n = Raise e)
      by (intros; apply IH; eauto).
    destruct (text_eqb k' (str "must"));
      [|destruct (text_eqb k' (str "should"));
        [|destruct (text_eqb k' (str "must_not"))]];
      try (destruct (build_conditions v') as [cs|e]; cbn [rbind];
           [apply R|now eexists]).
    apply R.
Qed.

(** A malformed clause makes the whole filter fail: when the value under
    [must], [should] or [must_not] cannot be iterated ([None], a boolean, a
    number), or holds an item that is not a dictionary, [_build_filter]
    raises and returns no filter, wherever the clause stands in the
    dictionary. *)
Theorem build_filter_malformed fd k v :
  In (k, v) fd -> clause_key k = true ->
  not_iterable v = true
  \/ (exists l x, iterate v = Ok l /\ In x l /\ is_dict x = false) ->
  exists e, build_filter fd = Raise e.
Proof.
  intros Hin Hk Hv. unfold build_filter.
  destruct (build_filter_loop_raises fd k v [] [] [] Hin Hk
              (build_conditions_malformed v Hv)) as [e ->].
  now exists e.
Qed.

Lemma build_filter_malformed_witness :
  exists e,
    build_filter [(str "content_type", VStr (str "code")); (str "must", VInt 3)]
    = Raise e.
Proof.
  exact (build_filter_malformed
           [(str "content_type", VStr (str "code")); (str "must", VInt 3)]
           (str "must") (VInt 3) (or_intror (or_introl eq_refl)) eq_refl
           (or_introl eq_refl)).
Defined.



(** ** [HybridSearchEngine.search] *)

Lemma trace_bind {E A B} (m : py E A) (f : A -> py E B) :
  trace (bind m f)
  = trace m ++ match outcome m with Ok a => trace (f a) | Raise _ => [] end.
Proof.
  destruct m as [tr [a|e]]; simpl; [|now rewrite app_nil_r].
  now destruct (f a).
Qed.

Lemma outcome_bind {E A B} (m : py E A) (f : A -> py E B) :
  outcome (bind m f) = rbind (outcome m) (fun a => outcome (f a)).
Proof. destruct m as [tr [a|e]]; simpl; [|reflexivity]. now destruct (f a). Qed.

Section SearchStages.
Context {U : Unicode} (time_time : nat -> float).

(** [search] is its three stages in a row, then the response. *)
Lemma search_stages self q dv preset (fd : option (dict value)) limit dw sw wp :
  let cfg := apply_preset preset fd limit dw sw in
  let v := to_sparse_vector (tokenizer self) q in
  search time_time self q dv preset fd limit dw sw wp
  = bind (embed_stage self q dv) (fun dv' =>
    bind (lift (filter_stage (r_filter_dict cfg))) (fun qf =>
    bind (hybrid_search_with_fusion self dv' (fst v) (snd v)
            (r_dense_weight cfg) (r_sparse_weight cfg) qf (r_limit cfg) wp)
         (fun rs => ret (response time_time q preset cfg rs)))).
Proof.
  intros cfg v. unfold search. fold cfg. unfold v.
  destruct (to_sparse_vector (tokenizer self) q) as [si sv]. cbn [fst snd].
  unfold embed_stage. f_equal.
  assert (F : (if truthy (r_filter_dict cfg)
               then bind (lift (build_filter (get_or (r_filter_dict cfg) [])))
                      (fun f => ret (Some f))
               else ret None)
              = lift (event := event) (filter_stage (r_filter_dict cfg))).
  { unfold filter_stage. destruct (truthy (r_filter_dict cfg)); [|reflexivity].
    now destruct (build_filter (get_or (r_filter_dict cfg) [])). }
  rewrite F. reflexivity.
Qed.

Lemma search_trace self q dv preset (fd : option (dict value)) limit dw sw wp :
  let cfg := apply_preset preset fd limit dw sw in
  let v := to_sparse_vector (tokenizer self) q in
  trace (search time_time self q dv preset fd limit dw sw wp)
  = trace (embed_stage self q dv)
    ++ match outcome (embed_stage self q dv), filter_stage (r_filter_dict cfg) with
       | Ok dv', Ok qf =>
           trace (hybrid_search_with_fusion self dv' (fst v) (snd v)
                    (r_dense_weight cfg) (r_sparse_weight cfg) qf (r_limit cfg) wp)
       | _, _ => []
       end.
Proof.
  intros cfg v. rewrite search_stages. fold cfg v. rewrite trace_bind. f_equal.
  destruct (outcome (embed_stage self q dv)) as [dv'|e]; [|reflexivity].
  rewrite trace_bind. cbn [lift trace outcome fst snd app].
  destruct (filter_stage (r_filter_dict cfg)) as [qf|e]; [|reflexivity].
  rewrite trace_bind.
  destruct (outcome (hybrid_search_with_fusion _ _ _ _ _ _ _ _ _));
    cbn [ret trace fst]; now rewrite app_nil_r.
Qed.

Lemma search_outcome self q dv preset (fd : option (dict value)) limit dw sw wp :
  let cfg := apply_preset preset fd limit dw sw in
  let v := to_sparse_vector (tokenizer self) q in
  outcome (search time_time self q dv preset fd limit dw sw wp)
  = rbind (outcome (embed_stage self q dv)) (fun dv' =>
    rbind (filter_stage (r_filter_dict cfg)) (fun qf =>
    rbind (outcome (hybrid_search_with_fusion self dv' (fst v) (snd v)
                      (r_dense_weight cfg) (r_sparse_weight cfg) qf
                      (r_limit cfg) wp))
          (fun rs => Ok (response time_time q preset cfg rs)))).
Proof.
  intros cfg v. rewrite search_stages. fold cfg v. rewrite outcome_bind.
  destruct (outcome (embed_stage self q dv)) as [dv'|e]; [|reflexivity].
  cbn [rbind]. rewrite outcome_bind. cbn [lift outcome snd].
  destruct (filter_stage (r_filter_dict cfg)) as [qf|e]; [|reflexivity].
  cbn [rbind]. rewrite outcome_bind. reflexivity.
Qed.

End SearchStages.

Lemma embed_stage_cases self q dv :
  ((dv <> None \/ embedding_fn self = None)
   /\ embed_stage self q dv = ([], Ok dv))
  \/ (exists embed,
        dv = None /\ embedding_fn self = Some embed
        /\ embed_stage self q dv
           = ([EEmbed q], rbind (embed q) (fun v => Ok (Some v)))).
Proof.
  unfold embed_stage. destruct dv as [v|].
  - left. split; [left; discriminate|reflexivity].
  - destruct (embedding_fn self) as [embed|].
    + right. exists embed. repeat split. now destruct (embed q).
    + left. split; [now right|reflexivity].
Qed.

(** The three courses of [_hybrid_search_with_fusion]. *)
Lemma fusion_cases self dv si sv dw sw f limit wp :
  let col := collection_name self in
  let pf := prefetch_queries self dv si sv f in
  let run := hybrid_search_with_fusion self dv si sv dw sw f limit wp in
  (truthy dv = false /\ nonempty si = false
   /\ run = ([EScroll col f limit wp],
             rbind (scroll (client self) col f limit wp)
               (fun r => Ok (map of_record (fst r)))))
  \/ (exists pts,
        query_points (client self) col pf RRF limit wp = Ok pts
        /\ run = ([EQueryPoints col pf RRF limit wp], Ok (map of_scored pts)))
  \/ (exists e qv,
        query_points (client self) col pf RRF limit wp = Raise e
        /\ run = ([EQueryPoints col pf RRF limit wp; EWarning e;
                   ESearch col qv f limit wp],
                  rbind (Qdrant.search (client self) col qv f limit wp)
                    (fun pts => Ok (map of_scored pts)))).
Proof.
  intros col pf run. unfold run, col.
  destruct (nonempty pf) eqn:NE.
  - right. destruct (query_points (client self) (collection_name self) pf RRF
                       limit wp) as [pts|e] eqn:Q.
    + left. exists pts. split; [reflexivity|].
      exact (fusion_run_Ok self dv si sv dw sw f limit wp pts NE Q).
    + right. rewrite (fusion_run_Raise self dv si sv dw sw f limit wp e NE Q).
      destruct (truthy dv) eqn:T.
      * destruct dv as [v|]; [|discriminate]. exists e, (dense_query v).
        split; [reflexivity|]. now rewrite single_run_dense.
      * destruct (nonempty si) eqn:NS.
        -- exists e, (sparse_query si sv). split; [reflexivity|].
           now rewrite single_run_sparse.
        -- exfalso. unfold pf, prefetch_queries in NE. now rewrite T, NS in NE.
  - left. apply prefetch_none in NE as [T NS]. repeat split; try assumption.
    rewrite fusion_run_none by assumption. apply scroll_run.
Qed.

Section SearchProperties.
Context {U : Unicode} (time_time : nat -> float).

(** The calls of one [search], in order: at most one embedding call,
    first, then nothing (an earlier stage raised), or one [scroll], or one
    fused query, or a fused query that failed followed by a warning and one
    native search.  So [search] makes at most three external calls, at most
    two of them to the index, and never scrolls after a vector query. *)
Theorem search_calls self q dv preset (fd : option (dict value)) limit dw sw wp :
  exists pre tail,
    trace (search time_time self q dv preset fd limit dw sw wp) = pre ++ tail
    /\ (pre = [] \/ pre = [EEmbed q])
    /\ (tail = []
        \/ (exists col f l, tail = [EScroll col f l wp])
        \/ (exists col pf l, tail = [EQueryPoints col pf RRF l wp])
        \/ (exists col pf l e qv f,
              tail = [EQueryPoints col pf RRF l wp; EWarning e;
                      ESearch col qv f l wp])).
Proof.
  rewrite search_trace.
  set (cfg := apply_preset preset fd limit dw sw).
  exists (trace (embed_stage self q dv)). eexists. split; [reflexivity|]. split.
  - destruct (embed_stage_cases self q dv) as [[_ ->]|(embed & _ & _ & ->)];
      [now left|now right].
  - destruct (outcome (embed_stage self q dv)) as [dv'|e]; [|now left].
    destruct (filter_stage (r_filter_dict cfg)) as [qf|e]; [|now left].
    right.
    destruct (fusion_cases self dv' (fst (to_sparse_vector (tokenizer self) q))
                (snd (to_sparse_vector (tokenizer self) q))
                (r_dense_weight cfg) (r_sparse_weight cfg) qf (r_limit cfg) wp)
      as [(_ & _ & ->)|[(pts & _ & ->)|(e & qv & _ & ->)]]; cbn [trace fst].
    + left. now eexists _, _, _.
    + right; left. now eexists _, _, _.
    + right; right. now eexists _, _, _, _, _, _.
Qed.

(** The embedding function is called only when the caller passes no dense
    vector and a function is configured; then it is the first call, made
    once, with the query text, and when it raises, [search] raises the same
    exception without any call to the index. *)
Theorem search_embedding self q dv preset (fd : option (dict value)) limit dw sw wp :
  let run := search time_time self q dv preset fd limit dw sw wp in
  (dv <> None \/ embedding_fn self = None ->
   Forall (fun ev => is_embed ev = false) (trace run))
  /\ (forall embed,
        dv = None -> embedding_fn self = Some embed ->
        (exists rest,
           trace run = EEmbed q :: rest
           /\ Forall (fun ev => is_embed ev = false) rest)
        /\ (forall e, embed q = Raise e -> run = ([EEmbed q], Raise e))).
Proof.
  intros run.
  assert (T : Forall (fun ev => is_embed ev = false)
                match outcome (embed_stage self q dv),
                      filter_stage (r_filter_dict (apply_preset preset fd limit dw sw))
                with
                | Ok dv', Ok qf =>
                    trace (hybrid_search_with_fusion self dv'
                             (fst (to_sparse_vector (tokenizer self) q))
                             (snd (to_sparse_vector (tokenizer self) q))
                             (r_dense_weight (apply_preset preset fd limit dw sw))
                             (r_sparse_weight (apply_preset preset fd limit dw sw))
                             qf (r_limit (apply_preset preset fd limit dw sw)) wp)
                | _, _ => []
                end).
  { destruct (outcome (embed_stage self q dv)) as [dv'|e]; [|constructor].
    destruct (filter_stage _) as [qf|e]; [|constructor].
    match goal with |- context [hybrid_search_with_fusion ?a ?b ?c ?d ?e ?f ?g ?h ?i] =>
      destruct (fusion_cases a b c d e f g h i)
        as [(_ & _ & ->)|[(pts & _ & ->)|(e' & qv & _ & ->)]] end;
      repeat constructor. }
  split.
  - intros H. unfold run. rewrite search_trace.
    destruct (embed_stage_cases self q dv) as [[_ E]|(embed & -> & E' & _)].
    + rewrite E in *. exact T.
    + destruct H as [H|H]; congruence.
  - intros embed -> He.
    destruct (embed_stage_cases self q None) as [[[H|H] _]|(embed' & _ & E' & E)];
      try congruence.
    assert (embed' = embed) by congruence. subst embed'. split.
    + exists (match outcome (embed_stage self q None),
                    filter_stage (r_filter_dict (apply_preset preset fd limit dw sw))
              with
              | Ok dv', Ok qf =>
                  trace (hybrid_search_with_fusion self dv'
                           (fst (to_sparse_vector (tokenizer self) q))
                           (snd (to_sparse_vector (tokenizer self) q))
                           (r_dense_weight (apply_preset preset fd limit dw sw))
                           (r_sparse_weight (apply_preset preset fd limit dw sw))
                           qf (r_limit (apply_preset preset fd limit dw sw)) wp)
              | _, _ => []
              end).
      split; [|exact T]. unfold run. rewrite search_trace.
      now rewrite E at 1.
    + intros e Hq. unfold run.
      rewrite (pair_trace_outcome (search _ _ _ _ _ _ _ _ _ _)).
      rewrite search_trace, search_outcome, E, Hq. reflexivity.
Qed.

End SearchProperties.

Lemma search_embedding_witness :
  search Demo.clock Demo2.engine [] None None None 20 0.7 0.3 true
  = ([EEmbed []], Raise (ExternalError (str "empty input"))).
Proof.
  exact (proj2 (proj2 (@search_embedding latin1 Demo.clock Demo2.engine [] None
                         None None 20 0.7 0.3 true)
                  Demo2.embed eq_refl eq_refl)
           (ExternalError (str "empty input")) eq_refl).
Defined.

Section SearchErrors.
Context {U : Unicode} (time_time : nat -> float).

(** When the filter does not build, [search] raises before it reaches the
    index: its outcome is an exception and no index call is in its trace. *)
Theorem search_filter_error self q dv preset (fd : option (dict value))
    limit dw sw wp e :
  filter_stage (r_filter_dict (apply_preset preset fd limit dw sw)) = Raise e ->
  let run := search time_time self q dv preset fd limit dw sw wp in
  (exists e', outcome run = Raise e')
  /\ Forall (fun ev => is_index_call ev = false) (trace run)
  /\ (dv <> None \/ embedding_fn self = None -> trace run = []).
Proof.
  intros F run. unfold run.
  pose proof (search_trace time_time self q dv preset fd limit dw sw wp) as Tr.
  pose proof (search_outcome time_time self q dv preset fd limit dw sw wp) as Out.
  cbv zeta in Tr, Out. rewrite F in Tr, Out.
  destruct (embed_stage_cases self q dv) as [[H E]|(embed & -> & He & E)];
    rewrite E in Tr, Out; cbn [trace outcome fst snd rbind app] in Tr, Out.
  - split; [now exists e|]. split; [rewrite Tr; constructor|].
    intros _. exact Tr.
  - split; [|split].
    + rewrite Out. destruct (embed q); now eexists.
    + rewrite Tr. destruct (embed q); repeat constructor.
    + intros [H|H]; congruence.
Qed.

(** A failure of the fused query alone never fails [search]: when the
    embedding (if any is needed) succeeds, the filter builds, and the native
    search and the scroll of the index never raise, [search] returns a
    response, whatever the fused query does. *)
Theorem search_survives_fusion self q dv preset (fd : option (dict value))
    limit dw sw wp :
  (forall col qv f l w, exists pts, Qdrant.search (client self) col qv f l w = Ok pts) ->
  (forall col f l w, exists r, scroll (client self) col f l w = Ok r) ->
  (forall embed, embedding_fn self = Some embed -> dv = None ->
     exists v, embed q = Ok v) ->
  (exists qf,
     filter_stage (r_filter_dict (apply_preset preset fd limit dw sw)) = Ok qf
     /\ accepted_option qf = true) ->
  exists resp,
    outcome (search time_time self q dv preset fd limit dw sw wp) = Ok resp.
Proof.
  intros HS HC HE (qf & F & _). rewrite search_outcome, F.
  assert (exists dv', outcome (embed_stage self q dv) = Ok dv') as [dv' ->].
  { destruct (embed_stage_cases self q dv) as [[_ ->]|(embed & D & He & ->)].
    - now eexists.
    - destruct (HE embed He D) as [v ->]. now eexists. }
  cbn [rbind].
  match goal with |- context [hybrid_search_with_fusion ?a ?b ?c ?d ?e ?f ?g ?h ?i] =>
    destruct (fusion_cases a b c d e f g h i)
      as [(_ & _ & ->)|[(pts & _ & ->)|(e' & qv & _ & ->)]] end;
    cbn [outcome snd].
  - destruct (HC (collection_name self) qf
                (r_limit (apply_preset preset fd limit dw sw)) wp) as [r ->].
    now eexists.
  - now eexists.
  - destruct (HS (collection_name self) qv qf
                (r_limit (apply_preset preset fd limit dw sw)) wp) as [l ->].
    now eexists.
Qed.

End SearchErrors.

Lemma search_filter_error_witness :
  trace (search Demo.clock Demo.engine (str "rpc") None None
           (Some [(str "must", VInt 3)]) 20 0.7 0.3 true)
  = [].
Proof.
  refine (proj2 (proj2 (@search_filter_error latin1 Demo.clock Demo.engine (str "rpc")
                          None None (Some [(str "must", VInt 3)])
                          20 0.7 0.3 true TypeError eq_refl))
            (or_intror eq_refl)).
Defined.

Lemma search_survives_fusion_witness :
  exists resp,
    outcome (search Demo.clock Demo.engine_without_fusion (str "rpc") None None
               None 20 0.7 0.3 true) = Ok resp.
Proof.
  refine (@search_survives_fusion latin1 Demo.clock Demo.engine_without_fusion
            (str "rpc") None None None 20 0.7 0.3 true _ _ _ _).
  - intros. now eexists.
  - intros. now eexists.
  - intros embed H. discriminate H.
  - exists None. split; reflexivity.
Defined.

Section SearchConfig.
Context {U : Unicode} (time_time : nat -> float).

Lemma apply_preset_weights preset (fd : option (dict value)) limit dw sw dw' sw' :
  r_filter_dict (apply_preset preset fd limit dw sw)
  = r_filter_dict (apply_preset preset fd limit dw' sw')
  /\ r_limit (apply_preset preset fd limit dw sw)
     = r_limit (apply_preset preset fd limit dw' sw').
Proof. unfold apply_preset. destruct (truthy preset); split; reflexivity. Qed.

(** The two weights take no part in retrieval: two calls of [search] that
    differ only in [dense_weight] and [sparse_weight] make the same external
    calls with the same arguments and return the same results; the responses
    differ at most in the weights they echo in [config_used]. *)
Theorem search_weights_unused self q dv preset (fd : option (dict value))
    limit dw sw dw' sw' wp :
  let run := search time_time self q dv preset fd limit dw sw wp in
  let run' := search time_time self q dv preset fd limit dw' sw' wp in
  trace run = trace run'
  /\ match outcome run, outcome run' with
     | Ok r, Ok r' => findings r = findings r'
     | Raise e, Raise e' => e = e'
     | _, _ => False
     end.
Proof.
  intros run run'. unfold run, run'. rewrite !search_trace, !search_outcome.
  destruct (apply_preset_weights preset fd limit dw sw dw' sw') as [EF EL].
  rewrite EF, EL.
  destruct (outcome (embed_stage self q dv)) as [dv'|e];
    [|cbn [rbind]; split; reflexivity].
  destruct (filter_stage _) as [qf|e]; [|cbn [rbind]; split; reflexivity].
  cbn [rbind]. split; [reflexivity|].
  change (hybrid_search_with_fusion self dv'
            (fst (to_sparse_vector (tokenizer self) q))
            (snd (to_sparse_vector (tokenizer self) q))
            (r_dense_weight (apply_preset preset fd limit dw sw))
            (r_sparse_weight (apply_preset preset fd limit dw sw)) qf
            (r_limit (apply_preset preset fd limit dw' sw')) wp)
    with (hybrid_search_with_fusion self dv'
            (fst (to_sparse_vector (tokenizer self) q))
            (snd (to_sparse_vector (tokenizer self) q))
            (r_dense_weight (apply_preset preset fd limit dw' sw'))
            (r_sparse_weight (apply_preset preset fd limit dw' sw')) qf
            (r_limit (apply_preset preset fd limit dw' sw')) wp).
  destruct (outcome (hybrid_search_with_fusion _ _ _ _ _ _ _ _ _)) as [rs|e];
    [|reflexivity].
  cbn [rbind]. unfold findings, response.
  cbn [results total_found query search_time_ms config_used cu_preset cu_limit].
  now rewrite EL.
Qed.

Lemma preset_defines p :
  has_key presets p = true ->
  p <> [] /\ exists w w' fl,
    p_dense_weight (get_preset_config p) = Some w
    /\ p_sparse_weight (get_preset_config p) = Some w'
    /\ p_final_limit (get_preset_config p) = Some fl
    /\ In fl [15; 20; 30]%Z.
Proof.
  unfold has_key, get_preset_config, presets. cbn [existsb dict_get fst].
  repeat match goal with
  | |- context [text_eqb (str ?n) p] =>
      let E := fresh "E" in
      destruct (text_eqb (str n) p) eqn:E;
      [apply text_eqb_eq in E; subst p; intros _; split; [discriminate|];
       do 3 eexists; repeat split; cbn; tauto|]
  end.
  discriminate.
Qed.

(** Under one of the six presets, [search] ignores the caller's [limit],
    [dense_weight] and [sparse_weight] altogether: every preset defines all
    three, so two calls that differ only in them are the same run, with the
    same calls and the same response. *)
Theorem search_known_preset self q dv p (fd : option (dict value))
    limit dw sw limit' dw' sw' wp :
  has_key presets p = true ->
  search time_time self q dv (Some p) fd limit dw sw wp
  = search time_time self q dv (Some p) fd limit' dw' sw' wp.
Proof.
  intros K. destruct (preset_defines p K) as (NE & w & w' & fl & Hw & Hw' & Hfl & _).
  assert (E : apply_preset (Some p) fd limit dw sw
              = apply_preset (Some p) fd limit' dw' sw').
  { unfold apply_preset. destruct p as [|c p]; [congruence|].
    cbn [truthy get_or] in *. rewrite Hw, Hw', Hfl. reflexivity. }
  unfold search. rewrite E. reflexivity.
Qed.

End SearchConfig.

Lemma search_known_preset_witness :
  search Demo.clock Demo.engine (str "rpc") None (Some (str "docs")) None
    3 0.9 0.1 true
  = search Demo.clock Demo.engine (str "rpc") None (Some (str "docs")) None
      50 0.5 0.5 true.
Proof.
  exact (@search_known_preset latin1 Demo.clock Demo.engine (str "rpc") None
           (str "docs") None 3 0.9 0.1 50 0.5 0.5 true eq_refl).
Defined.

Section SearchArguments.
Context {U : Unicode} (time_time : nat -> float).

Lemma prefetch_queries_shape self dv si sv f :
  Forall (fun p => pf_filter p = f
                   /\ pf_limit p = config_prefetch_limit self (pf_using p))
    (prefetch_queries self dv si sv f).
Proof.
  unfold prefetch_queries.
  destruct (truthy dv), (nonempty si); cbn [app];
    repeat (constructor; [split; reflexivity|]); constructor.
Qed.

Lemma fusion_index_calls self dv si sv dw sw f limit wp ev :
  In ev (trace (hybrid_search_with_fusion self dv si sv dw sw f limit wp)) ->
  is_index_call ev = true ->
  event_collection ev = Some (collection_name self)
  /\ event_limit ev = Some limit
  /\ Forall (eq f) (event_filters ev)
  /\ Forall (fun p => pf_limit p = config_prefetch_limit self (pf_using p))
       (event_prefetch ev).
Proof.
  pose proof (prefetch_queries_shape self dv si sv f) as PS.
  assert (PF : Forall (eq f) (map pf_filter (prefetch_queries self dv si sv f))).
  { apply Forall_map. eapply Forall_impl; [|exact PS]. now intros p [-> _]. }
  assert (PL : Forall (fun p => pf_limit p = config_prefetch_limit self (pf_using p))
                 (prefetch_queries self dv si sv f)).
  { eapply Forall_impl; [|exact PS]. now intros p [_ ->]. }
  destruct (fusion_cases self dv si sv dw sw f limit wp)
    as [(_ & _ & ->)|[(pts & _ & ->)|(e & qv & _ & ->)]];
    cbn [trace fst In]; intros H I;
    repeat match type of H with
           | _ \/ _ => destruct H as [<-|H]
           | False => destruct H
           end;
    try discriminate I;
    cbn [event_collection event_limit event_filters event_prefetch];
    repeat split; auto.
Qed.

(** Every call [search] makes to the index addresses the engine's
    collection and carries the resolved limit and the filter built from the
    resolved filter dictionary (on the call itself, or on each of its
    prefetch queries); a prefetch query asks for the number of candidates of
    the engine's [HybridSearchConfig], so a preset's [prefetch_limit] never
    reaches the index. *)
Theorem search_index_calls self q dv preset (fd : option (dict value))
    limit dw sw wp ev :
  let cfg := apply_preset preset fd limit dw sw in
  In ev (trace (search time_time self q dv preset fd limit dw sw wp)) ->
  is_index_call ev = true ->
  exists qf,
    filter_stage (r_filter_dict cfg) = Ok qf
    /\ event_collection ev = Some (collection_name self)
    /\ event_limit ev = Some (r_limit cfg)
    /\ Forall (eq qf) (event_filters ev)
    /\ Forall (fun p => pf_limit p = config_prefetch_limit self (pf_using p))
         (event_prefetch ev).
Proof.
  intros cfg H I. rewrite search_trace in H. fold cfg in H.
  apply in_app_or in H as [H|H].
  - exfalso.
    destruct (embed_stage_cases self q dv) as [[_ E]|(embed & _ & _ & E)];
      rewrite E in H; cbn [trace fst In] in H.
    + exact H.
    + destruct H as [<-|[]]. discriminate I.
  - destruct (outcome (embed_stage self q dv)) as [dv'|e]; [|destruct H].
    destruct (filter_stage (r_filter_dict cfg)) as [qf|e]; [|destruct H].
    exists qf. split; [reflexivity|].
    exact (fusion_index_calls _ _ _ _ _ _ _ _ _ _ H I).
Qed.

(** An empty dense vector counts as no vector, yet it keeps [search] from
    calling the embedding function: [search] with [dense_vector = []] runs as
    on an engine without embedding function and without dense vector. *)
Theorem search_empty_dense_vector self q preset (fd : option (dict value))
    limit dw sw wp :
  search time_time self q (Some []) preset fd limit dw sw wp
  = search time_time (without_embedding self) q None preset fd limit dw sw wp.
Proof.
  rewrite !search_stages. unfold embed_stage, without_embedding.
  cbn [embedding_fn tokenizer]. unfold bind at 1 3. cbn [ret fst snd app].
  destruct (filter_stage _) as [qf|e]; reflexivity.
Qed.

(** What [search] returns of the points of the index: no result names a
    vector, and after a scroll (no vector query was possible) every result
    has the score 1.0. *)
Theorem search_results_shape self q dv preset (fd : option (dict value))
    limit dw sw wp tr resp :
  search time_time self q dv preset fd limit dw sw wp = (tr, Ok resp) ->
  Forall (fun r => vector_name r = []) (results resp)
  /\ (Exists (fun ev => match ev with EScroll _ _ _ _ => True | _ => False end) tr ->
      Forall (fun r => score r = 1.0%float) (results resp)).
Proof.
  intros H.
  pose proof (f_equal trace H) as Tr. pose proof (f_equal outcome H) as Out.
  cbn [trace outcome fst snd] in Tr, Out.
  rewrite search_trace in Tr. rewrite search_outcome in Out.
  assert (NoScroll : forall dv0,
            ~ Exists (fun ev => match ev with EScroll _ _ _ _ => True | _ => False end)
                (trace (embed_stage self q dv0))).
  { intros dv0 X.
    destruct (embed_stage_cases self q dv0) as [[_ E]|(embed & _ & _ & E)];
      rewrite E in X; cbn [trace fst] in X.
    - inversion X.
    - inversion X as [? ? X'|? ? X']; [exact X'|inversion X']. }
  destruct (outcome (embed_stage self q dv)) as [dv'|e]; [|discriminate Out].
  destruct (filter_stage _) as [qf|e]; [|discriminate Out].
  cbn [rbind] in Out.
  match type of Out with context [hybrid_search_with_fusion ?a ?b ?c ?d ?e ?f ?g ?h ?i] =>
    destruct (fusion_cases a b c d e f g h i)
      as [(_ & _ & F)|[(pts & _ & F)|(e' & qv & _ & F)]];
    rewrite F in Tr, Out end;
    cbn [trace outcome fst snd] in Tr, Out.
  - destruct (scroll _ _ _ _ _) as [r|e]; [|discriminate Out].
    cbn [rbind] in Out. injection Out as <-. cbn [results].
    split; [|intros _]; apply Forall_map, Forall_forall; reflexivity.
  - cbn [rbind] in Out. injection Out as <-. cbn [results].
    split; [apply Forall_map, Forall_forall; reflexivity|].
    intros X. exfalso. rewrite <- Tr in X. apply Exists_app in X as [X|X].
    + exact (NoScroll _ X).
    + inversion X as [? ? X'|? ? X']; [exact X'|inversion X'].
  - destruct (Qdrant.search _ _ _ _ _ _) as [r|e]; [|discriminate Out].
    cbn [rbind] in Out. injection Out as <-. cbn [results].
    split; [apply Forall_map, Forall_forall; reflexivity|].
    intros X. exfalso. rewrite <- Tr in X. apply Exists_app in X as [X|X].
    + exact (NoScroll _ X).
    + repeat (inversion X as [? ? X'|? ? X']; [exact X'|]; clear X; rename X' into X).
      inversion X.
Qed.

End SearchArguments.

Lemma search_index_calls_witness :
  exists qf,
    filter_stage
      (r_filter_dict (apply_preset (Some (str "code")) None 5 0.7 0.3)) = Ok qf
    /\ event_collection (Demo2.code_query latin1) = Some (collection_name Demo.engine)
    /\ event_limit (Demo2.code_query latin1)
       = Some (r_limit (apply_preset (Some (str "code")) None 5 0.7 0.3))
    /\ Forall (eq qf) (event_filters (Demo2.code_query latin1))
    /\ Forall (fun p => pf_limit p = config_prefetch_limit Demo.engine (pf_using p))
         (event_prefetch (Demo2.code_query latin1)).
Proof.
  refine (@search_index_calls latin1 Demo.clock Demo.engine (str "rpc") None
            (Some (str "code")) None 5 0.7 0.3 true (Demo2.code_query latin1) _ eq_refl).
  vm_compute. left. reflexivity.
Defined.

Lemma search_results_shape_witness :
  exists resp,
    search Demo.clock Demo.engine [] None None None 20 0.7 0.3 true
    = ([EScroll COLLECTION_UNIFIED None 20 true], Ok resp)
    /\ List.length (results resp) = 2%nat
    /\ Forall (fun r => vector_name r = []) (results resp)
    /\ Forall (fun r => score r = 1.0%float) (results resp).
Proof.
  eexists. split; [vm_compute; reflexivity|].
  split; [reflexivity|].
  match goal with
  | |- Forall _ (results ?r) /\ _ =>
      destruct (@search_results_shape latin1 Demo.clock Demo.engine [] None None
                  None 20 0.7 0.3 true [EScroll COLLECTION_UNIFIED None 20 true] r)
        as [H1 H2]; [vm_compute; reflexivity|]
  end.
  split; [exact H1|]. apply H2. constructor. exact I.
Defined.

(** No preset carries a malformed filter: under any preset name, known or
    not, and without a filter of the caller, the filter stage of [search]
    never raises; it yields a filter exactly when the preset has one, and
    the library accepts every condition of that filter. *)
Theorem preset_filter_builds p (fd : option (dict value)) limit dw sw :
  truthy fd = false ->
  exists qf,
    filter_stage (r_filter_dict (apply_preset (Some p) fd limit dw sw)) = Ok qf
    /\ (qf = None <-> p_filter (get_preset_config p) = None)
    /\ (forall f, qf = Some f -> accepted_filter f = true).
Proof.
  intros T.
  assert (F : filter_stage fd = Ok None) by (unfold filter_stage; now rewrite T).
  unfold apply_preset. destruct (truthy (Some p)) eqn:TP.
  - cbn [r_filter_dict get_or].
    replace (negb (truthy fd)) with true by now rewrite T.
    unfold get_preset_config, presets. cbn [dict_get fst snd].
    repeat match goal with
    | |- context [text_eqb (str ?n) p] =>
        let E := fresh "E" in
        destruct (text_eqb (str n) p) eqn:E;
        [cbv [p_filter SearchPresets.code_search SearchPresets.semantic_search
                SearchPresets.keyword_search SearchPresets.network_code_search
                SearchPresets.gamecreator_search
                SearchPresets.documentation_search];
         eexists; split; [first [exact F | vm_compute; reflexivity]|];
         split; [split; intros H; first [discriminate H | reflexivity]|];
         intros f H; first [discriminate H | injection H as <-; reflexivity]|]
    end.
    cbn [p_filter no_preset]. exists None. split; [exact F|].
    split; [split; reflexivity|]. intros f H. discriminate H.
  - cbn [r_filter_dict]. exists None. split; [exact F|].
    split; [split; [|reflexivity]|].
    + intros _. destruct p; [reflexivity|discriminate TP].
    + intros f H. discriminate H.
Qed.

Lemma preset_filter_builds_witness :
  exists qf,
    filter_stage (r_filter_dict (apply_preset (Some (str "gamecreator"))
                                   (Some []) 20 0.7 0.3)) = Ok qf
    /\ (qf = None <-> p_filter (get_preset_config (str "gamecreator")) = None)
    /\ (forall f, qf = Some f -> accepted_filter f = true).
Proof.
  exact (preset_filter_builds (str "gamecreator") (Some []) 20 0.7 0.3 eq_refl).
Defined.

Section ConvenienceFacts.
Import Convenience.
Context {U : Unicode} (time_time : nat -> float) (connect : QdrantClient).

Lemma search_no_embed self q dv preset (fd : option (dict value)) limit dw sw wp :
  dv <> None \/ embedding_fn self = None ->
  Forall (fun ev => is_embed ev = false)
    (trace (search time_time self q dv preset fd limit dw sw wp)).
Proof.
  intros H. rewrite search_trace. apply Forall_app. split.
  - destruct (embed_stage_cases self q dv) as [[_ ->]|(embed & D & E & _)].
    + constructor.
    + destruct H; congruence.
  - destruct (outcome (embed_stage self q dv)) as [dv'|e]; [|constructor].
    destruct (filter_stage _) as [qf|e]; [|constructor].
    match goal with |- context [hybrid_search_with_fusion ?a ?b ?c ?d ?e ?f ?g ?h ?i] =>
      destruct (fusion_cases a b c d e f g h i)
        as [(_ & _ & ->)|[(pts & _ & ->)|(e' & qv & _ & ->)]] end;
      cbn [trace fst]; repeat constructor.
Qed.

Lemma search_length self q dv preset (fd : option (dict value)) limit dw sw wp resp :
  honours_limit (client self) ->
  outcome (search time_time self q dv preset fd limit dw sw wp) = Ok resp ->
  (Z.of_nat (List.length (results resp))
   <= Z.max 0 (r_limit (apply_preset preset fd limit dw sw)))%Z.
Proof.
  intros (HQ & HS & HC). rewrite search_outcome.
  destruct (outcome (embed_stage self q dv)) as [dv'|e]; [|discriminate].
  destruct (filter_stage _) as [qf|e]; [|discriminate].
  cbn [rbind].
  match goal with |- context [hybrid_search_with_fusion ?a ?b ?c ?d ?e ?f ?g ?h ?i] =>
    destruct (fusion_cases a b c d e f g h i)
      as [(_ & _ & ->)|[(pts & Q & ->)|(e' & qv & _ & ->)]] end;
    cbn [outcome snd].
  - destruct (scroll _ _ _ _ _) as [[l next]|e] eqn:S; [|discriminate].
    cbn [rbind]. intros [= <-]. cbn [response results fst]. rewrite length_map.
    eapply HC, S.
  - cbn [rbind]. intros [= <-]. cbn [response results]. rewrite length_map. eapply HQ, Q.
  - destruct (Qdrant.search _ _ _ _ _ _) as [l|e] eqn:S; [|discriminate].
    cbn [rbind]. intros [= <-]. cbn [response results]. rewrite length_map. eapply HS, S.
Qed.

(** The engine of the module is created once: after a first
    [hybrid_search] on a fresh module, [get_search_engine] returns the engine
    that call created, which has no embedding function, whatever
    [embedding_fn] it is given; so no later [hybrid_search] without a dense
    vector of the caller embeds its query, and none ever calls the embedding
    function. *)
Theorem hybrid_search_fixes_engine q preset limit dv (fd : option (dict value))
    dw sw wp embedding_fn :
  let g := snd (hybrid_search time_time connect q preset limit dv fd dw sw wp None) in
  get_search_engine connect embedding_fn g
  = (init connect COLLECTION_UNIFIED None, g)
  /\ forall q' preset' limit' dv' (fd' : option (dict value)) dw' sw' wp',
       let next :=
         hybrid_search time_time connect q' preset' limit' dv' fd' dw' sw' wp' g in
       snd next = g
       /\ Forall (fun ev => is_embed ev = false) (trace (fst next)).
Proof.
  cbn. split; [reflexivity|]. intros. split; [reflexivity|].
  apply search_no_embed. now right.
Qed.

Lemma payloads_run preset q limit g :
  fst (payloads time_time connect preset q limit g)
  = bind (search time_time (fst (get_search_engine connect None g)) q None
            (Some (str preset)) None limit DEFAULT_DENSE_WEIGHT
            DEFAULT_SPARSE_WEIGHT true)
      (fun response => ret (map payload_ (results response)))
  /\ snd (payloads time_time connect preset q limit g)
     = snd (get_search_engine connect None g).
Proof.
  unfold payloads, hybrid_search.
  destruct (get_search_engine connect None g) as [engine g']. split; reflexivity.
Qed.

Lemma payloads_limit preset q limit g tr l :
  honours_limit (client (fst (get_search_engine connect None g))) ->
  fst (payloads time_time connect preset q limit g) = (tr, Ok l) ->
  (Z.of_nat (List.length l)
   <= Z.max 0 (r_limit (apply_preset (Some (str preset)) None limit
                          DEFAULT_DENSE_WEIGHT DEFAULT_SPARSE_WEIGHT)))%Z.
Proof.
  intros HL H. rewrite (proj1 (payloads_run preset q limit g)) in H.
  apply bind_Ok in H as (tr1 & resp & tr2 & S & R & _).
  injection R as _ <-. rewrite length_map.
  eapply search_length; [exact HL|]. now rewrite S.
Qed.

(** [search_code], [search_docs] and [search_network_patterns] ignore their
    [limit]: the preset each of them names fixes the limit, so they ask the
    index for 20, 15 and 20 points whatever the caller passes, and over an
    index that honours limits they return at most that many payloads. *)
Theorem convenience_limit q limit limit' g :
  search_code time_time connect q limit g
  = search_code time_time connect q limit' g
  /\ search_docs time_time connect q limit g
     = search_docs time_time connect q limit' g
  /\ search_network_patterns time_time connect q limit g
     = search_network_patterns time_time connect q limit' g
  /\ (honours_limit (client (fst (get_search_engine connect None g))) ->
      forall tr l,
        (fst (search_code time_time connect q limit g) = (tr, Ok l) ->
         (List.length l <= 20)%nat)
        /\ (fst (search_docs time_time connect q limit g) = (tr, Ok l) ->
            (List.length l <= 15)%nat)
        /\ (fst (search_network_patterns time_time connect q limit g) = (tr, Ok l) ->
            (List.length l <= 20)%nat)).
Proof.
  assert (E : forall preset, has_key presets (str preset) = true ->
            payloads time_time connect preset q limit g
            = payloads time_time connect preset q limit' g).
  { intros preset K. unfold payloads, hybrid_search.
    destruct (get_search_engine connect None g) as [engine g'].
    destruct (preset_defines _ K) as (NE & w & w' & fl & Hw & Hw' & Hfl & _).
    unfold search, apply_preset. destruct (str preset) as [|c p] eqn:P; [congruence|].
    cbn [truthy get_or]. rewrite Hfl. reflexivity. }
  split; [apply E; reflexivity|]. split; [apply E; reflexivity|].
  split; [apply E; reflexivity|].
  intros HL tr l. repeat split; intros H;
    apply (payloads_limit _ _ _ _ _ _ HL) in H;
    change (r_limit _) with 20%Z in H || change (r_limit _) with 15%Z in H; lia.
Qed.

End ConvenienceFacts.

Lemma index_honours_limit : honours_limit Demo.index.
Proof.
  unfold honours_limit, Demo.index, Demo.up_to. cbn [query_points Qdrant.search scroll].
  repeat split; intros; match goal with H : Ok _ = Ok _ |- _ => injection H as <- end;
    try subst; rewrite length_firstn; lia.
Qed.

Lemma convenience_limit_witness :
  exists l,
    outcome (fst (Convenience.search_docs Demo.clock Demo.index (str "rpc") 200 None))
    = Ok l
    /\ (List.length l <= 15)%nat.
Proof.
  eexists. split; [vm_compute; reflexivity|].
  match goal with
  | |- (List.length ?l <= _)%nat =>
      refine (proj1 (proj2
                (proj2 (proj2 (proj2
                   (@convenience_limit latin1 Demo.clock Demo.index (str "rpc")
                      200 3 None))) index_honours_limit
                   (trace (fst (Convenience.search_docs Demo.clock Demo.index
                                  (str "rpc") 200 None))) l)) _)
  end.
  vm_compute; reflexivity.
Defined.

Section CliFacts.
Import Cli.
Context {U : Unicode}.

Lemma split_once_inv s head rest :
  split_once s = (head, rest) ->
  existsb (char_eqb space) head = false
  /\ match rest with
     | Some r => s = head ++ space :: r
     | None => s = head
     end.
Proof.
  revert head rest. induction s as [|c s IH]; intros head rest H; cbn in H.
  - injection H as <- <-. split; reflexivity.
  - destruct (char_eqb c space) eqn:C.
    + injection H as <- <-. apply N.eqb_eq in C. subst c. split; reflexivity.
    + destruct (split_once s) as [h r]. injection H as <- <-.
      destruct (IH h r eq_refl) as [NS E]. split.
      * cbn [existsb]. unfold char_eqb in *. rewrite N.eqb_sym, C. exact NS.
      * destruct r; cbn [app]; now rewrite <- E.
Qed.

Lemma split_once_space head r :
  existsb (char_eqb space) head = false ->
  split_once (head ++ space :: r) = (head, Some r).
Proof.
  induction head as [|c head IH]; intros NS.
  - reflexivity.
  - cbn [existsb] in NS. apply orb_false_iff in NS as [C NS].
    cbn [app split_once]. unfold char_eqb in *. rewrite N.eqb_sym, C.
    now rewrite (IH NS).
Qed.

Lemma lstrip_head c s : isspace c = false -> lstrip (c :: s) = c :: s.
Proof. intros H. cbn [lstrip]. now rewrite H. Qed.

Lemma strip_fixed c s d :
  isspace c = false -> isspace d = false ->
  strip (c :: s ++ [d]) = c :: s ++ [d].
Proof.
  intros Hc Hd. unfold strip. rewrite (lstrip_head c _ Hc).
  change (c :: s ++ [d]) with ((c :: s) ++ [d]).
  rewrite rev_app_distr. cbn [rev app]. rewrite (lstrip_head d _ Hd).
  change (d :: rev s ++ [c]) with ([d] ++ rev (c :: s)).
  rewrite rev_app_distr, rev_involutive. reflexivity.
Qed.

(** What the interactive mode searches for: the query is never empty; it is
    the stripped line searched under the preset of the command line, or, for
    a line that starts with a slash, the text after the first space searched
    under the name between the slash and that space, whatever that name is
    (no check against the presets, and the empty name included). *)
Theorem interpret_run args_preset line query preset :
  interpret args_preset line = Run query preset ->
  query <> []
  /\ ((preset = args_preset /\ query = strip line
       /\ startswith_slash query = false)
      \/ exists name,
           preset = Some name
           /\ strip line = slash :: name ++ space :: query
           /\ existsb (char_eqb space) name = false).
Proof.
  unfold interpret. destruct (mem _ _); [discriminate|].
  destruct (startswith_slash (strip line)) eqn:S.
  - destruct (split_once (strip line)) as [head rest] eqn:P.
    destruct (nonempty (get_or rest [])) eqn:NE; [|discriminate].
    intros [= <- <-]. split; [now destruct (get_or rest [])|]. right.
    apply split_once_inv in P as [NS E].
    destruct rest as [r|]; [|discriminate NE]. cbn [get_or].
    destruct head as [|c head].
    + rewrite E in S. cbn in S. discriminate S.
    + rewrite E in S. cbn [app startswith_slash] in S. apply N.eqb_eq in S.
      subst c. exists head. cbn [tl]. repeat split; [exact E|].
      cbn [existsb] in NS. now apply orb_false_iff in NS as [_ NS].
  - destruct (nonempty (strip line)) eqn:NE; [|discriminate].
    intros [= <- <-]. split; [now destruct (strip line)|]. left.
    repeat split. exact S.
Qed.

Lemma lower_slash s :
  all_ascii s = true ->
  mem (lower (slash :: s)) [str "quit"; str "exit"; str "q"] = false.
Proof.
  intros A. rewrite lower_ascii by exact A. reflexivity.
Qed.

(** A line [/name query] of ASCII characters, with no space in the name and
    no white space at the end, searches the query under that name, whatever
    preset the command line gave. *)
Theorem interpret_prefix args_preset name query c :
  all_ascii (name ++ query ++ [c]) = true ->
  existsb (char_eqb space) name = false ->
  ascii_space c = false ->
  interpret args_preset (slash :: name ++ space :: query ++ [c])
  = Run (query ++ [c]) (Some name).
Proof.
  intros A NS C. unfold all_ascii in A. rewrite !forallb_app in A.
  apply andb_true_iff in A as [An A]. apply andb_true_iff in A as [Aq Ac].
  cbn [forallb] in Ac. rewrite andb_true_r in Ac.
  assert (AL : all_ascii (name ++ space :: query ++ [c]) = true).
  { unfold all_ascii. rewrite forallb_app. cbn [forallb]. rewrite forallb_app.
    cbn [forallb]. now rewrite An, Aq, Ac. }
  assert (ST : strip (slash :: name ++ space :: query ++ [c])
               = slash :: name ++ space :: query ++ [c]).
  { change (name ++ space :: query ++ [c]) with (name ++ (space :: query) ++ [c]).
    rewrite app_assoc. apply strip_fixed.
    - now rewrite isspace_ascii.
    - now rewrite isspace_ascii. }
  unfold interpret. rewrite ST, (lower_slash _ AL).
  cbn [startswith_slash]. unfold char_eqb at 1. rewrite N.eqb_refl.
  change (slash :: name ++ space :: query ++ [c])
    with ((slash :: name) ++ space :: query ++ [c]).
  rewrite split_once_space by (cbn [existsb]; now rewrite NS).
  cbn [tl get_or]. now destruct query.
Qed.

End CliFacts.

Lemma interpret_run_witness :
  str "sync" <> []
  /\ ((Some (str "docs") = Some (str "code") /\ str "sync" = @Cli.strip latin1 (str " /docs sync ")
       /\ Cli.startswith_slash (str "sync") = false)
      \/ exists name,
           Some (str "docs") = Some name
           /\ @Cli.strip latin1 (str " /docs sync ")
              = Cli.slash :: name ++ space :: str "sync"
           /\ existsb (char_eqb space) name = false).
Proof.
  exact (@interpret_run latin1 (Some (str "code")) (str " /docs sync ")
           (str "sync") (Some (str "docs")) eq_refl).
Defined.

Lemma interpret_prefix_witness :
  @Cli.interpret latin1 (Some (str "code")) (str "/network spawn  player")
  = Cli.Run (str "spawn  player") (Some (str "network")).
Proof.
  exact (@interpret_prefix latin1 (Some (str "code")) (str "network")
           (str "spawn  playe") 114 eq_refl eq_refl eq_refl).
Defined.

Section CliLoop.
Import Cli.
Context {U : Unicode} (time_time : nat -> float).

(** The interactive mode ends at the first line that says [quit], [exit] or
    [q] (in any case, white space around it aside) or at an interrupt: it has
    run the searches of the lines before, in order, one for each line with a
    query, whether the search returned or raised, and it reads nothing of
    what follows. *)
Theorem interactive_ends engine args_preset args_limit before k after fuel :
  Forall (fun x => ends args_preset x = false) before ->
  ends args_preset k = true ->
  (List.length before < fuel)%nat ->
  interactive time_time fuel engine args_preset args_limit (before ++ k :: after)
  = Some (searches time_time engine args_preset args_limit before).
Proof.
  intros Hb Hk. revert fuel. induction Hb as [|x before Hx Hb IH]; intros fuel Hf.
  - destruct fuel as [|fuel]; [inversion Hf|]. cbn [app interactive searches].
    destruct k as [line|]; [|reflexivity].
    cbn [ends] in Hk. destruct (interpret args_preset line); try discriminate Hk.
    reflexivity.
  - destruct fuel as [|fuel]; [inversion Hf|]. cbn [List.length] in Hf.
    cbn [app interactive searches].
    destruct x as [line|]; [|discriminate Hx]. cbn [ends] in Hx.
    destruct (interpret args_preset line) as [| |query preset]; [discriminate Hx| |].
    + cbn [app]. apply IH. lia.
    + cbn [app]. rewrite IH by lia. reflexivity.
Qed.

(** When the input ends without such a line, the interactive mode never
    ends: [input()] raises [EOFError] at the end of the input, the loop
    prints the error and asks again, so no number of rounds completes it. *)
Theorem interactive_never_ends engine args_preset args_limit stdin fuel :
  Forall (fun x => ends args_preset x = false) stdin ->
  interactive time_time fuel engine args_preset args_limit stdin = None.
Proof.
  revert stdin. induction fuel as [|fuel IH]; intros stdin H; [reflexivity|].
  cbn [interactive]. destruct stdin as [|x stdin].
  - now rewrite (IH [] H).
  - inversion_clear H as [|? ? Hx Hs].
    destruct x as [line|]; [|discriminate Hx]. cbn [ends] in Hx.
    destruct (interpret args_preset line) as [| |query preset]; [discriminate Hx| |].
    + exact (IH stdin Hs).
    + now rewrite (IH stdin Hs).
Qed.

End CliLoop.

Lemma interactive_ends_witness :
  @Cli.interactive latin1 Demo.clock 5 Demo.engine None 10
    [Cli.Line (str "/docs sync"); Cli.Line (str "  "); Cli.Line (str " Quit ");
     Cli.Line (str "rpc")]
  = Some (@Cli.searches latin1 Demo.clock Demo.engine None 10
            [Cli.Line (str "/docs sync"); Cli.Line (str "  ")]).
Proof.
  refine (@interactive_ends latin1 Demo.clock Demo.engine None 10
            [Cli.Line (str "/docs sync"); Cli.Line (str "  ")]
            (Cli.Line (str " Quit ")) [Cli.Line (str "rpc")] 5 _ eq_refl _).
  - repeat (constructor; [reflexivity|]). constructor.
  - cbn. lia.
Defined.

Lemma interactive_never_ends_witness :
  @Cli.interactive latin1 Demo.clock 1000 Demo.engine None 10
    [Cli.Line (str "rpc"); Cli.Line (str "")]
  = None.
Proof.
  refine (@interactive_never_ends latin1 Demo.clock Demo.engine None 10
            [Cli.Line (str "rpc"); Cli.Line (str "")] 1000 _).
  repeat (constructor; [reflexivity|]). constructor.
Defined.
Section IndexerFacts.
Import Indexer.
Context {PointStruct : Type} (upsert : list PointStruct -> result unit).
Context (index_batch_size : Z).

Lemma add_errors_0 st : add_errors 0 st = st.
Proof. destruct st. unfold add_errors. cbn. f_equal. lia. Qed.

Lemma add_errors_add a b st : add_errors b (add_errors a st) = add_errors (a + b) st.
Proof. destruct st. unfold add_errors. cbn. f_equal. lia. Qed.

Lemma failures_app (a b : list (list PointStruct)) :
  failures upsert (a ++ b) = (failures upsert a + failures upsert b)%Z.
Proof. unfold failures. rewrite filter_app, length_app. lia. Qed.

Lemma upsert_points_run points (s : state PointStruct) :
  upsert_points upsert points s
  = (add_errors (failures upsert [points]) (fst s), snd s ++ [points]).
Proof.
  destruct s as [st sent]. unfold upsert_points, failures, failed.
  cbn [fst snd filter]. destruct (upsert points); cbn [List.length Z.of_nat].
  - now rewrite add_errors_0.
  - destruct st. reflexivity.
Qed.

Lemma counted_add_errors count (files : list (list PointStruct)) : commutes count ->
  forall k st,
    counted count files (add_errors k st) = add_errors k (counted count files st).
Proof.
  intros C. induction files as [|file files IH]; intros k st; [reflexivity|].
  cbn [counted]. now rewrite C, IH.
Qed.

Lemma index_files_run count files : commutes count ->
  forall points (s : state PointStruct),
  let r := index_files upsert index_batch_size count files points s in
  exists new,
    snd (snd r) = snd s ++ new
    /\ List.concat new ++ fst r = points ++ List.concat files
    /\ fst (snd r) = add_errors (failures upsert new) (counted count files (fst s)).
Proof.
  intros C. induction files as [|file files IH]; intros points s; cbv zeta.
  - exists []. cbn [index_files fst snd List.concat counted app].
    rewrite !app_nil_r. repeat split. unfold failures. cbn. now rewrite add_errors_0.
  - cbn [index_files counted List.concat]. cbv zeta.
    destruct (index_batch_size <=? Z.of_nat (List.length (points ++ file)))%Z.
    + rewrite upsert_points_run. cbn [fst snd].
      destruct (IH [] (add_errors (failures upsert [points ++ file])
                         (count (Z.of_nat (List.length file)) (fst s)),
                       snd s ++ [points ++ file]))
        as (new & Hs & Hc & Hst).
      cbv zeta in Hs, Hc, Hst. cbn [fst snd app] in Hs, Hc, Hst.
      exists ((points ++ file) :: new). cbn [List.concat].
      split; [now rewrite Hs, <- app_assoc|].
      split; [now rewrite <- !app_assoc, Hc|].
      rewrite Hst, (counted_add_errors count files C), add_errors_add.
      change ((points ++ file) :: new) with ([points ++ file] ++ new).
      now rewrite failures_app.
    + destruct (IH (points ++ file)
                  (count (Z.of_nat (List.length file)) (fst s), snd s))
        as (new & Hs & Hc & Hst).
      cbv zeta in Hs, Hc, Hst. cbn [fst snd] in Hs, Hc, Hst.
      exists new. split; [exact Hs|]. split; [now rewrite Hc, app_assoc|exact Hst].
Qed.

Lemma index_with_run count files (s : state PointStruct) : commutes count ->
  exists new,
    snd (index_with upsert index_batch_size count files s) = snd s ++ new
    /\ List.concat new = List.concat files
    /\ fst (index_with upsert index_batch_size count files s)
       = add_errors (failures upsert new) (counted count files (fst s)).
Proof.
  intros C. unfold index_with.
  destruct (index_files_run count files C [] s) as (new & Hs & Hc & Hst).
  cbv zeta in Hs, Hc, Hst. cbn [app] in Hc.
  destruct (index_files upsert index_batch_size count files [] s) as [points s'].
  cbn [fst snd] in Hs, Hc, Hst. destruct points as [|p points].
  - exists new. rewrite app_nil_r in Hc. auto.
  - rewrite upsert_points_run. cbn [fst snd]. exists (new ++ [p :: points]).
    split; [now rewrite Hs, app_assoc|].
    split; [now rewrite concat_app; cbn [List.concat]; rewrite app_nil_r|].
    now rewrite Hst, add_errors_add, failures_app.
Qed.

Lemma count_code_commutes : commutes count_code.
Proof. intros n k st. reflexivity. Qed.

Lemma count_doc_commutes : commutes count_doc.
Proof. intros n k st. reflexivity. Qed.

Lemma counted_code (files : list (list PointStruct)) st :
  counted count_code files st
  = {| code_files := code_files st + Z.of_nat (List.length files);
       code_symbols := code_symbols st + Z.of_nat (List.length (List.concat files));
       doc_files := doc_files st; doc_entries := doc_entries st;
       errors := errors st |}.
Proof.
  revert st. induction files as [|file files IH]; intros st.
  - destruct st. cbn. f_equal; lia.
  - cbn [counted]. rewrite IH. unfold count_code. cbn [code_files code_symbols
      doc_files doc_entries errors List.concat List.length]. rewrite length_app.
    f_equal; lia.
Qed.

Lemma counted_doc (files : list (list PointStruct)) st :
  counted count_doc files st
  = {| code_files := code_files st; code_symbols := code_symbols st;
       doc_files := doc_files st + Z.of_nat (List.length files);
       doc_entries := doc_entries st + Z.of_nat (List.length (List.concat files));
       errors := errors st |}.
Proof.
  revert st. induction files as [|file files IH]; intros st.
  - destruct st. cbn. f_equal; lia.
  - cbn [counted]. rewrite IH. unfold count_doc. cbn [code_files code_symbols
      doc_files doc_entries errors List.concat List.length]. rewrite length_app.
    f_equal; lia.
Qed.

(** An indexing run hands every point to the index exactly once, in the
    order of the files, code before documentation and never both in one
    batch, whether or not a batch fails (a failed batch is not sent again);
    and whatever fails, the statistics count every file and every point,
    and one error for each batch the index refused. *)
Theorem index_all_sends code docs :
  let r := index_all upsert index_batch_size code docs (no_stats, []) in
  (exists code_batches doc_batches,
     snd r = code_batches ++ doc_batches
     /\ List.concat code_batches = List.concat code
     /\ List.concat doc_batches = List.concat docs)
  /\ fst r
     = {| code_files := Z.of_nat (List.length code);
          code_symbols := Z.of_nat (List.length (List.concat code));
          doc_files := Z.of_nat (List.length docs);
          doc_entries := Z.of_nat (List.length (List.concat docs));
          errors := failures upsert (snd r) |}.
Proof.
  cbv zeta. unfold index_all, index_docs, index_code.
  destruct (index_with_run count_code code (no_stats, []) count_code_commutes)
    as (cb & Hs & Hc & Hst).
  cbn [fst snd app] in Hs, Hst.
  destruct (index_with_run count_doc docs
              (index_with upsert index_batch_size count_code code (no_stats, []))
              count_doc_commutes) as (db & Hs' & Hc' & Hst').
  rewrite Hs in Hs'. split.
  - exists cb, db. auto.
  - rewrite Hst', Hs', Hst, counted_code, failures_app. unfold add_errors, no_stats.
    cbn [code_files code_symbols doc_files doc_entries errors].
    rewrite counted_doc. cbn [code_files code_symbols doc_files doc_entries errors].
    f_equal; lia.
Qed.

Lemma index_files_sizes count files : (1 <= index_batch_size)%Z ->
  forall points (s : state PointStruct),
  (Z.of_nat (List.length points) < index_batch_size)%Z ->
  Forall (fun b => (index_batch_size <= Z.of_nat (List.length b))%Z) (snd s) ->
  let r := index_files upsert index_batch_size count files points s in
  (Z.of_nat (List.length (fst r)) < index_batch_size)%Z
  /\ Forall (fun b => (index_batch_size <= Z.of_nat (List.length b))%Z) (snd (snd r)).
Proof.
  intros B. induction files as [|file files IH]; intros points s Hp Hs; cbv zeta.
  - cbn [index_files fst snd]. auto.
  - cbn [index_files]. cbv zeta.
    destruct (index_batch_size <=? Z.of_nat (List.length (points ++ file)))%Z eqn:E.
    + apply IH.
      * cbn [List.length]. lia.
      * rewrite upsert_points_run. cbn [snd]. apply Forall_app. split; [exact Hs|].
        constructor; [|constructor]. now apply Z.leb_le.
    + apply IH; [now apply Z.leb_gt|exact Hs].
Qed.

(** With a batch size of at least one, no batch is empty, and every batch
    but the last holds at least [index_batch_size] points; a batch is cut
    only at the end of a file, so it may hold more. *)
Theorem index_batch_sizes count files st :
  (1 <= index_batch_size)%Z ->
  let sent := snd (index_with upsert index_batch_size count files (st, [])) in
  Forall (fun b => b <> []) sent
  /\ Forall (fun b => (index_batch_size <= Z.of_nat (List.length b))%Z)
       (removelast sent).
Proof.
  intros B. cbv zeta. unfold index_with.
  destruct (index_files_sizes count files B [] (st, [])) as [Hp Hs];
    [cbn; lia|constructor|].
  cbv zeta in Hp, Hs.
  destruct (index_files upsert index_batch_size count files [] (st, []))
    as [points [st' sent]].
  cbn [fst snd] in Hp, Hs.
  assert (NE : Forall (fun b : list PointStruct => b <> []) sent).
  { eapply Forall_impl; [|exact Hs]. intros b Hb ->. cbn in Hb. lia. }
  destruct points as [|p points].
  - cbn [snd]. split; [exact NE|].
    apply Forall_forall. intros b Hb. rewrite Forall_forall in Hs. apply Hs.
    clear - Hb. induction sent as [|x [|y l] IH]; cbn in Hb; try contradiction.
    destruct Hb as [<-|Hb]; [now left|right; now apply IH].
  - rewrite upsert_points_run. cbn [snd]. split.
    + apply Forall_app. split; [exact NE|]. constructor; [discriminate|constructor].
    + now rewrite removelast_last.
Qed.

(** With a batch size of zero or less, every file is sent on its own, a
    file without points as an empty batch. *)
Theorem index_batch_size_zero count files st :
  (index_batch_size <= 0)%Z ->
  snd (index_with upsert index_batch_size count files (st, [])) = files.
Proof.
  intros B. unfold index_with.
  assert (L : forall files (s : state PointStruct),
            index_files upsert index_batch_size count files [] s
            = ([], (fst (snd (index_files upsert index_batch_size count files [] s)),
                    snd s ++ files))).
  { clear files st. induction files as [|file files IH]; intros s.
    - cbn. rewrite app_nil_r. now destruct s.
    - cbn [index_files]. cbv zeta. cbn [app].
      replace (index_batch_size <=? Z.of_nat (List.length file))%Z with true
        by (symmetry; apply Z.leb_le; lia).
      rewrite IH at 1. rewrite upsert_points_run. cbn [fst snd].
      now rewrite <- app_assoc. }
  rewrite L. reflexivity.
Qed.

End IndexerFacts.

Lemma index_batch_sizes_witness :
  snd (Indexer.index_with (fun _ : list Z => Ok tt) 2 Indexer.count_code
         [[1; 2; 3]; []; [4]]%Z (Indexer.no_stats, []))
  = [[1; 2; 3]; [4]]%Z
  /\ Forall (fun b => b <> [])
       (snd (Indexer.index_with (fun _ : list Z => Ok tt) 2 Indexer.count_code
               [[1; 2; 3]; []; [4]]%Z (Indexer.no_stats, []))).
Proof.
  split; [reflexivity|].
  refine (proj1 (@index_batch_sizes Z (fun _ => Ok tt) 2 Indexer.count_code
                   [[1; 2; 3]; []; [4]]%Z Indexer.no_stats _)).
  lia.
Defined.

Lemma index_batch_size_zero_witness :
  snd (Indexer.index_with (fun _ : list Z => Ok tt) 0 Indexer.count_doc
         [[1; 2]; []; [3]]%Z (Indexer.no_stats, []))
  = [[1; 2]; []; [3]]%Z.
Proof.
  refine (@index_batch_size_zero Z (fun _ => Ok tt) 0 Indexer.count_doc
            [[1; 2]; []; [3]]%Z Indexer.no_stats _).
  lia.
Defined.

End Extras.
